(** * cl-protobufs, protoc plugin: the file generator ([protoc/file.cc])

    A shallow embedding of [FileGenerator] (its constructor and
    [GenerateSource]) and the properties of the text it drives into the
    [io::Printer].

    The per-entity generators ([enum.h], [message.h], [service.h],
    [field.h]), the name helpers of [names.h] and the printer of the protobuf
    library are collaborators of [file.cc]; they are parameters of the
    development. *)

From Stdlib Require Import String Ascii List Arith Lia.
From Stdlib Require Import Sorted SetoidList.
From Stdlib Require Import Orders OrdersEx MSetRBT MSetFacts.
Import ListNotations.
Open Scope list_scope.
Open Scope string_scope.

Set Implicit Arguments.

(** ** Characters and [std::string] *)

Definition nl : string := String (ascii_of_nat 10) "".
Definition dq : string := String (ascii_of_nat 34) "".
Definition slash : ascii := ascii_of_nat 47.
Definition backslash : ascii := ascii_of_nat 92.
Definition period_char : ascii := ascii_of_nat 46.

Module StdString.

(** Membership of a character in a character set given as a string. *)
Fixpoint mem (c : ascii) (chars : string) : bool :=
  match chars with
  | EmptyString => false
  | String d chars' => if Ascii.eqb c d then true else mem c chars'
  end.

(** [s.find_last_of(chars)]: the position of the last character of [s]
    that is one of [chars]; [None] is [std::string::npos]. *)
Fixpoint find_last_of (s chars : string) : option nat :=
  match s with
  | EmptyString => None
  | String c s' =>
      match find_last_of s' chars with
      | Some i => Some (S i)
      | None => if mem c chars then Some 0 else None
      end
  end.

(** [s.rfind(c)]: the position of the last occurrence of [c]. *)
Definition rfind (s : string) (c : ascii) : option nat :=
  find_last_of s (String c "").

(** [s.erase(pos, len)]; [len = None] is the default [npos] (erase to the
    end).  [pos > s.size()] throws [std::out_of_range]: [None]. *)
Definition erase (s : string) (pos : nat) (len : option nat) : option string :=
  if Nat.ltb (String.length s) pos then None
  else
    Some (substring 0 pos s ++
          match len with
          | None => ""
          | Some n => substring (pos + n) (String.length s - (pos + n)) s
          end).

(** [s.empty()] *)
Definition empty (s : string) : bool :=
  match s with EmptyString => true | String _ _ => false end.

End StdString.

(** ** Outcomes of fallible code

    [Fatal] is [GOOGLE_LOG(FATAL)]: the message is logged and the process
    aborts.  [OutOfRange] stands for an access outside a container
    ([std::out_of_range], or undefined behaviour for [operator[]] and the
    descriptor accessors). *)

Inductive Outcome (A : Type) : Type :=
| Done (a : A)
| Fatal (msg : string)
| OutOfRange.

Arguments Done {A} a.
Arguments Fatal {A} msg.
Arguments OutOfRange {A}.

Definition obind {A B} (m : Outcome A) (k : A -> Outcome B) : Outcome B :=
  match m with
  | Done a => k a
  | Fatal msg => Fatal msg
  | OutOfRange => OutOfRange
  end.

Definition of_option {A} (o : option A) : Outcome A :=
  match o with Some a => Done a | None => OutOfRange end.

(** [v[i]] *)
Definition at_ {A} (v : list A) (i : nat) : Outcome A := of_option (nth_error v i).

Declare Scope outcome_scope.
Delimit Scope outcome_scope with outcome.
Notation "x <- m ;; k" := (obind m (fun x => k))
  (at level 61, m at next level, right associativity) : outcome_scope.

(** [std::vector<T> v(n); for (int i = 0; i < n; ++i) v[i] = f(i);] *)
Fixpoint fill_from {A} (f : nat -> Outcome A) (i n : nat) : Outcome (list A) :=
  match n with
  | O => Done []
  | S n' => (x <- f i ;; rest <- fill_from f (S i) n' ;; Done (x :: rest))%outcome
  end.

Definition fill {A} (n : nat) (f : nat -> Outcome A) : Outcome (list A) :=
  fill_from f 0 n.

(** ** Descriptors *)

Inductive Syntax : Type := SYNTAX_UNKNOWN | SYNTAX_PROTO2 | SYNTAX_PROTO3.

(** The descriptor and generator classes of the other translation units. *)
Record Entities : Type := {
  EnumDescriptor : Type;
  Descriptor : Type;
  FieldDescriptor : Type;
  ServiceDescriptor : Type;
  EnumGenerator : Type;
  MessageGenerator : Type;
  ServiceGenerator : Type
}.

(** What [file.cc] reads of a [FileDescriptor]. *)
#[warnings="-register-all"] Inductive FileDescriptor (E : Entities) : Type := mkFileDescriptor {
  name : string;
  package : string;
  syntax : Syntax;
  dependencies : list (FileDescriptor E);
  enum_types : list (EnumDescriptor E);
  message_types : list (Descriptor E);
  extensions : list (FieldDescriptor E);
  services : list (ServiceDescriptor E)
}.

Section Accessors.
Context {E : Entities}.
Implicit Type file : FileDescriptor E.

Definition dependency_count file := List.length (dependencies file).
Definition dependency file i := at_ (dependencies file) i.
Definition enum_type_count file := List.length (enum_types file).
Definition enum_type file i := at_ (enum_types file) i.
Definition message_type_count file := List.length (message_types file).
Definition message_type file i := at_ (message_types file) i.
Definition extension_count file := List.length (extensions file).
Definition extension file i := at_ (extensions file) i.
Definition service_count file := List.length (services file).
Definition service file i := at_ (services file) i.
End Accessors.

(** ** The set of package names: [std::set<std::string>] *)

Module StringSet := MSetRBT.Make String_as_OT.
Module StringSetFacts := MSetFacts.Facts StringSet.

(** ** Collaborators *)

Record Collaborators (E : Entities) : Type := {
  (** [names.h] *)
  FileLispPackage : FileDescriptor E -> string;
  StrToLower : string -> string;
  (** [FileDescriptor::DebugString] *)
  DebugString : FileDescriptor E -> string;
  (** constructors of the entity generators *)
  EnumGenerator_new : EnumDescriptor E -> EnumGenerator E;
  MessageGenerator_new : Descriptor E -> MessageGenerator E;
  ServiceGenerator_new : ServiceDescriptor E -> ServiceGenerator E;
  (** the symbols an entity reports, in its declaration order *)
  enum_exports : EnumGenerator E -> list string;
  message_exports : MessageGenerator E -> list string;
  service_exports : ServiceGenerator E -> list string;
  service_rpc_exports : ServiceGenerator E -> list string;
  (** the lisp packages of the types a message's fields resolve to *)
  message_packages : MessageGenerator E -> list string
}.

(** ** The generator object *)

Record FileGenerator (E : Entities) : Type := mkFileGenerator {
  file_ : FileDescriptor E;
  lisp_package_name_ : string;
  schema_name_ : string;
  syntax_ : string;
  enums_ : list (EnumGenerator E);
  messages_ : list (MessageGenerator E);
  services_ : list (ServiceGenerator E)
}.

Section Constructor.
Context {E : Entities} (C : Collaborators E).

(** Lines 60-69: derive the schema name from the file name. *)
Definition derive_schema_name (file_name : string) : Outcome string :=
  (let schema_name_ := file_name in
   let slash_pos := StdString.find_last_of schema_name_ (String backslash (String slash "")) in
   schema_name_ <-
     match slash_pos with
     | Some slash_pos => of_option (StdString.erase schema_name_ 0 (Some (slash_pos + 1)))
     | None => Done schema_name_
     end ;;
   let period := StdString.rfind schema_name_ period_char in
   schema_name_ <-
     match period with
     | Some period => of_option (StdString.erase schema_name_ period None)
     | None => Done schema_name_
     end ;;
   Done (StrToLower C schema_name_))%outcome.

(** [FileGenerator::FileGenerator(const FileDescriptor* file)] *)
Definition FileGenerator_new (file : FileDescriptor E) : Outcome (FileGenerator E) :=
  (let lisp_package_name_ := FileLispPackage C file in
   enums_ <- fill (enum_type_count file)
               (fun i => e <- enum_type file i ;; Done (EnumGenerator_new C e)) ;;
   messages_ <- fill (message_type_count file)
                  (fun i => m <- message_type file i ;; Done (MessageGenerator_new C m)) ;;
   services_ <- fill (service_count file)
                  (fun i => s <- service file i ;; Done (ServiceGenerator_new C s)) ;;
   syntax_ <-
     match syntax file with
     | SYNTAX_PROTO2 => Done ":proto2"
     | SYNTAX_PROTO3 => Done ":proto3"
     | SYNTAX_UNKNOWN => Fatal ("Unknown syntax for file: " ++ DebugString C file)
     end ;;
   schema_name_ <- derive_schema_name (name file) ;;
   Done (mkFileGenerator file lisp_package_name_ schema_name_ syntax_
           enums_ messages_ services_))%outcome.

End Constructor.

(** ** Calls made by [GenerateSource]

    [GenerateSource] never reads from the printer: what it does to it is the
    sequence of calls it makes, on the printer itself and on the entity
    generators that are handed the printer. *)

Inductive Call (E : Entities) : Type :=
| Print (text : string) (vars : list (string * string))
| PrintRaw (data : string)
| Indent
| Outdent
| EnumGenerator_Generate (e : EnumGenerator E)
| MessageGenerator_Generate (m : MessageGenerator E)
| GenerateExtension (f : FieldDescriptor E) (file : FileDescriptor E)
| ServiceGenerator_Generate (s : ServiceGenerator E).

Arguments Print {E} text vars.
Arguments PrintRaw {E} data.
Arguments Indent {E}.
Arguments Outdent {E}.
Arguments EnumGenerator_Generate {E} e.
Arguments MessageGenerator_Generate {E} m.
Arguments GenerateExtension {E} f file.
Arguments ServiceGenerator_Generate {E} s.

(** A computation that may stop with an error and otherwise returns a value
    and the calls it made, in order. *)
Definition Gen (E : Entities) (A : Type) : Type := Outcome (A * list (Call E)).

Section GenMonad.
Context {E : Entities}.

Definition ret {A} (a : A) : Gen E A := Done (a, []).

Definition bind {A B} (m : Gen E A) (k : A -> Gen E B) : Gen E B :=
  match m with
  | Done (a, out1) =>
      match k a with
      | Done (b, out2) => Done (b, (out1 ++ out2)%list)
      | Fatal msg => Fatal msg
      | OutOfRange => OutOfRange
      end
  | Fatal msg => Fatal msg
  | OutOfRange => OutOfRange
  end.

Definition call (c : Call E) : Gen E unit := Done (tt, [c]).

Definition lift {A} (o : Outcome A) : Gen E A :=
  match o with
  | Done a => ret a
  | Fatal msg => Fatal msg
  | OutOfRange => OutOfRange
  end.

(** [for (const T& x : l) body], with the variables the body assigns as
    loop-carried state. *)
Fixpoint for_each {A S} (l : list A) (s : S) (body : A -> S -> Gen E S) : Gen E S :=
  match l with
  | [] => ret s
  | x :: l' => bind (body x s) (fun s' => for_each l' s' body)
  end.

(** [for (int i = 0; i < n; ++i) body] *)
Definition for_ {S} (n : nat) (s : S) (body : nat -> S -> Gen E S) : Gen E S :=
  for_each (seq 0 n) s body.

Definition calls {A} (m : Gen E A) : list (Call E) :=
  match m with Done (_, out) => out | _ => [] end.

End GenMonad.

Declare Scope gen_scope.
Delimit Scope gen_scope with gen.
Notation "x <- m ;; k" := (bind m (fun x => k))
  (at level 61, m at next level, right associativity) : gen_scope.
Notation "' pat <- m ;; k" := (bind m (fun x => match x with pat => k end))
  (at level 61, pat pattern, m at next level, right associativity) : gen_scope.
Notation "m ;; k" := (bind m (fun _ => k))
  (at level 61, right associativity) : gen_scope.

(** ** Templates of [GenerateSource] *)

Module Template.
Definition header : string :=
  ";;; $file_name$.lisp" ++ nl ++
  ";;;" ++ nl ++
  ";;; Generated by the protocol buffer compiler. DO NOT EDIT!" ++ nl.
Definition in_package_user : string :=
  nl ++ "(cl:in-package #:common-lisp-user)" ++ nl.
Definition declaim : string :=
  nl ++ "#+sbcl (cl:declaim (cl:optimize (cl:debug 0)" ++
  " (sb-c:store-coverage-data 0)))" ++ nl.
Definition defpackage : string :=
  nl ++ "(cl:eval-when (:compile-toplevel :load-toplevel :execute)" ++ nl ++
  "  (cl:unless (cl:find-package " ++ dq ++ "$package_name$" ++ dq ++ ")" ++ nl ++
  "    (cl:defpackage " ++ dq ++ "$package_name$" ++ dq ++ " (:use))))" ++ nl.
Definition in_package : string :=
  nl ++ "(cl:in-package " ++ dq ++ "$package_name$" ++ dq ++ ")" ++ nl.
Definition define_schema : string :=
  nl ++ "(cl:eval-when (:compile-toplevel :load-toplevel :execute)" ++
  nl ++ "(proto:define-schema '$schema_name$" ++ nl.
Definition syntax : string := ":syntax $syntax$" ++ nl.
Definition package : string := ":package " ++ dq ++ "$pck$" ++ dq.
Definition import_open : string := ":import '(".
Definition import : string := dq ++ "$import$" ++ dq.
Definition schema_close : string := "))" ++ nl.
Definition enums : string := nl ++ ";; Top-Level enums.".
Definition messages : string := nl ++ ";; Top-Level messages.".
Definition extensions : string := nl ++ ";; Top-Level extensions.".
Definition services : string := nl ++ ";; Services.".
Definition register : string :=
  nl ++ nl ++
  "(cl:eval-when (:compile-toplevel :load-toplevel :execute)" ++ nl ++
  "(cl:setf (cl:gethash #P" ++ dq ++ "$file_name$" ++ dq ++ " proto-impl::*all-schemas*)" ++ nl ++
  "         (proto:find-schema '$schema_name$)))" ++ nl.
Definition export : string := nl ++ "(cl:export '".
Definition export_close : string := "))" ++ nl.
(** the values of [sep] *)
Definition option_sep : string := nl ++ " ".
Definition import_sep : string := nl ++ "          ".
Definition export_sep : string := nl ++ "             ".
End Template.

(** ** [GenerateSource] *)

(** The final values of the local containers of [GenerateSource], returned
    for specification purposes (the C++ function returns [void]). *)
Record Locals : Type := mkLocals {
  packages : StringSet.t;
  exports : list string;
  rpc_exports : list string
}.

Section GenerateSource.
Context {E : Entities} (C : Collaborators E).

(** Modelled from the spec: [EnumGenerator::AddExports] ([enum.cc], not
    under src/) appends every symbol the entity makes publicly visible, in
    stable declaration order, to the export vector it is given. *)
Definition EnumGenerator_AddExports (e : EnumGenerator E) (exports : list string)
  : list string :=
  (exports ++ enum_exports C e)%list.

(** Modelled from the spec: [MessageGenerator::AddExports] ([message.cc],
    not under src/) appends the message's public symbols. *)
Definition MessageGenerator_AddExports (m : MessageGenerator E) (exports : list string)
  : list string :=
  (exports ++ message_exports C m)%list.

(** Modelled from the spec: [ServiceGenerator::AddExports] ([service.cc],
    not under src/) appends the service's public symbols. *)
Definition ServiceGenerator_AddExports (s : ServiceGenerator E) (exports : list string)
  : list string :=
  (exports ++ service_exports C s)%list.

(** Modelled from the spec: [ServiceGenerator::AddRpcExports]
    ([service.cc], not under src/) appends the service's RPC symbols. *)
Definition ServiceGenerator_AddRpcExports (s : ServiceGenerator E)
           (rpc_exports : list string) : list string :=
  (rpc_exports ++ service_rpc_exports C s)%list.

(** Modelled from the spec: [MessageGenerator::AddPackages] ([message.cc],
    not under src/) records in the caller's package set the namespace of
    every type the message's fields resolve to. *)
Definition MessageGenerator_AddPackages (m : MessageGenerator E)
           (packages : StringSet.t) : StringSet.t :=
  fold_left (fun set p => StringSet.add p set) (message_packages C m) packages.

(** [void FileGenerator::GenerateSource(io::Printer* printer)] *)
Definition GenerateSource (g : FileGenerator E) : Gen E Locals :=
  (call (Print Template.header [("file_name", name (file_ g))]) ;;
   call (Print Template.in_package_user []) ;;

   let packages := StringSet.empty in
   let packages :=
     if negb (StdString.empty (lisp_package_name_ g)) then
       let packages := StringSet.add (lisp_package_name_ g) packages in
       if (0 <? service_count (file_ g))%nat then
         StringSet.add (lisp_package_name_ g ++ "-RPC") packages
       else packages
     else packages in

   packages <-
     for_ (message_type_count (file_ g)) packages (fun i packages =>
       m <- lift (at_ (messages_ g) i) ;;
       ret (MessageGenerator_AddPackages m packages)) ;;

   call (Print Template.declaim []) ;;
   for_each (StringSet.elements packages) tt (fun package _ =>
     call (Print Template.defpackage [("package_name", package)])) ;;

   (if negb (StdString.empty (lisp_package_name_ g)) then
      call (Print Template.in_package [("package_name", lisp_package_name_ g)])
    else ret tt) ;;

   call (Print Template.define_schema [("schema_name", schema_name_ g)]) ;;
   call Indent ;;
   call Indent ;;
   let sep := "" in
   call (Print Template.syntax [("syntax", syntax_ g)]) ;;
   sep <-
     (if negb (StdString.empty (package (file_ g))) then
        call (Print sep []) ;;
        let sep := Template.option_sep in
        call (Print Template.package [("pck", package (file_ g))]) ;;
        ret sep
      else ret sep) ;;
   sep <-
     (if (0 <? dependency_count (file_ g))%nat then
        call (Print sep []) ;;
        call (Print Template.import_open []) ;;
        let sep := "" in
        sep <-
          for_ (dependency_count (file_ g)) sep (fun i sep =>
            call (Print sep []) ;;
            let sep := Template.import_sep in
            d <- lift (dependency (file_ g) i) ;;
            call (Print Template.import [("import", name d)]) ;;
            ret sep) ;;
        call (Print ")" []) ;;
        let sep := Template.option_sep in
        ret sep
      else ret sep) ;;
   call (Print Template.schema_close []) ;;
   call Outdent ;;
   call Outdent ;;

   let exports := [] in
   let exports := (exports ++ [schema_name_ g])%list in

   exports <-
     (if (0 <? enum_type_count (file_ g))%nat then
        call (Print Template.enums []) ;;
        for_ (enum_type_count (file_ g)) exports (fun i exports =>
          e <- lift (at_ (enums_ g) i) ;;
          call (EnumGenerator_Generate e) ;;
          ret (EnumGenerator_AddExports e exports))
      else ret exports) ;;

   exports <-
     (if (0 <? message_type_count (file_ g))%nat then
        call (Print Template.messages []) ;;
        for_ (message_type_count (file_ g)) exports (fun i exports =>
          m <- lift (at_ (messages_ g) i) ;;
          call (MessageGenerator_Generate m) ;;
          ret (MessageGenerator_AddExports m exports))
      else ret exports) ;;

   (if (0 <? extension_count (file_ g))%nat then
      call (Print Template.extensions []) ;;
      for_ (extension_count (file_ g)) tt (fun i _ =>
        f <- lift (extension (file_ g) i) ;;
        call (GenerateExtension f (file_ g)))
    else ret tt) ;;

   let rpc_exports := [] in
   '(exports, rpc_exports) <-
     (if (0 <? service_count (file_ g))%nat then
        call (Print Template.services []) ;;
        for_ (service_count (file_ g)) (exports, rpc_exports)
          (fun i '(exports, rpc_exports) =>
             s <- lift (at_ (services_ g) i) ;;
             call (ServiceGenerator_Generate s) ;;
             let exports := ServiceGenerator_AddExports s exports in
             let rpc_exports := ServiceGenerator_AddRpcExports s rpc_exports in
             ret (exports, rpc_exports))
      else ret (exports, rpc_exports)) ;;

   call (Print Template.register
           [("file_name", name (file_ g)); ("schema_name", schema_name_ g)]) ;;

   (if negb (StdString.empty (lisp_package_name_ g)) then
      (if negb (match exports with [] => true | _ => false end) then
         let sep := "(" in
         call (Print Template.export []) ;;
         for_each exports sep (fun e sep =>
           call (Print sep []) ;;
           let sep := Template.export_sep in
           call (PrintRaw e) ;;
           ret sep) ;;
         call (Print Template.export_close [])
       else ret tt) ;;
      (if negb (match rpc_exports with [] => true | _ => false end) then
         call (Print Template.in_package
                 [("package_name", lisp_package_name_ g ++ "-RPC")]) ;;
         let sep := "(" in
         call (Print Template.export []) ;;
         for_each rpc_exports sep (fun e sep =>
           call (Print sep []) ;;
           let sep := Template.export_sep in
           call (PrintRaw e) ;;
           ret sep) ;;
         call (Print Template.export_close [])
       else ret tt)
    else ret tt) ;;

   ret (mkLocals packages exports rpc_exports))%gen.

End GenerateSource.

(** ** The calls of [GenerateSource], section by section

    A closed description of what [GenerateSource] does to the printer, used
    to state and prove its properties; [GenerateSource_run] below shows that
    it is what the function computes. *)

Section Trace.
Context {E : Entities} (C : Collaborators E).

(** The [sep] idiom: every item is preceded by the current separator, which
    is [first] before the first item and [rest] afterwards. *)
Fixpoint separated {A} (first rest : string) (c : A -> Call E) (l : list A)
  : list (Call E) :=
  match l with
  | [] => []
  | x :: l' => Print first [] :: c x :: separated rest rest c l'
  end.

Definition non_empty {A} (l : list A) : bool :=
  match l with [] => false | _ :: _ => true end.

Definition rpc_package_name (g : FileGenerator E) : string :=
  lisp_package_name_ g ++ "-RPC".

(** The package set before the messages add to it (lines 84-90). *)
Definition own_packages (g : FileGenerator E) : StringSet.t :=
  if StdString.empty (lisp_package_name_ g) then StringSet.empty
  else if non_empty (services (file_ g)) then
    StringSet.add (rpc_package_name g) (StringSet.add (lisp_package_name_ g) StringSet.empty)
  else StringSet.add (lisp_package_name_ g) StringSet.empty.

Definition add_message_packages (ms : list (MessageGenerator E)) (set : StringSet.t)
  : StringSet.t :=
  fold_left (fun set m => MessageGenerator_AddPackages C m set) ms set.

Definition all_packages (g : FileGenerator E) : StringSet.t :=
  add_message_packages (messages_ g) (own_packages g).

Definition all_exports (g : FileGenerator E) : list string :=
  (schema_name_ g ::
   flat_map (enum_exports C) (enums_ g) ++
   flat_map (message_exports C) (messages_ g) ++
   flat_map (service_exports C) (services_ g))%list.

Definition all_rpc_exports (g : FileGenerator E) : list string :=
  flat_map (service_rpc_exports C) (services_ g).

Definition header_calls (g : FileGenerator E) : list (Call E) :=
  [Print Template.header [("file_name", name (file_ g))];
   Print Template.in_package_user []].

Definition declare_package (p : string) : Call E :=
  Print Template.defpackage [("package_name", p)].

Definition in_package (p : string) : Call E :=
  Print Template.in_package [("package_name", p)].

Definition package_calls (g : FileGenerator E) : list (Call E) :=
  (Print Template.declaim [] ::
   map declare_package (StringSet.elements (all_packages g)) ++
   (if StdString.empty (lisp_package_name_ g) then []
    else [in_package (lisp_package_name_ g)]))%list.

Definition import_call (d : FileDescriptor E) : Call E :=
  Print Template.import [("import", name d)].

Definition schema_calls (g : FileGenerator E) : list (Call E) :=
  ([Print Template.define_schema [("schema_name", schema_name_ g)];
    Indent; Indent;
    Print Template.syntax [("syntax", syntax_ g)]] ++
   (if StdString.empty (package (file_ g)) then []
    else [Print "" []; Print Template.package [("pck", package (file_ g))]]) ++
   (if non_empty (dependencies (file_ g)) then
      [Print (if StdString.empty (package (file_ g)) then "" else Template.option_sep) [];
       Print Template.import_open []] ++
      separated "" Template.import_sep import_call (dependencies (file_ g)) ++
      [Print ")" []]
    else []) ++
   [Print Template.schema_close []; Outdent; Outdent])%list.

Definition group {A} (title : string) (c : A -> Call E) (l : list A) : list (Call E) :=
  if non_empty l then Print title [] :: map c l else [].

Definition entity_section (g : FileGenerator E) : list (Call E) :=
  (group Template.enums EnumGenerator_Generate (enums_ g) ++
   group Template.messages MessageGenerator_Generate (messages_ g) ++
   group Template.extensions (fun f => GenerateExtension f (file_ g)) (extensions (file_ g)) ++
   group Template.services ServiceGenerator_Generate (services_ g))%list.

Definition register_call (g : FileGenerator E) : Call E :=
  Print Template.register
    [("file_name", name (file_ g)); ("schema_name", schema_name_ g)].

(** One export statement: [(cl:export '(a b ...))]. *)
Definition export_statement (symbols : list string) : list (Call E) :=
  (Print Template.export [] ::
   separated "(" Template.export_sep PrintRaw symbols ++
   [Print Template.export_close []])%list.

Definition export_section (lisp_package_name : string) (exports rpc_exports : list string)
  : list (Call E) :=
  if StdString.empty lisp_package_name then []
  else
    ((if non_empty exports then export_statement exports else []) ++
     (if non_empty rpc_exports then
        in_package (lisp_package_name ++ "-RPC") :: export_statement rpc_exports
      else []))%list.

Definition trace (g : FileGenerator E) : list (Call E) :=
  (header_calls g ++ package_calls g ++ schema_calls g ++ entity_section g ++
   register_call g ::
   export_section (lisp_package_name_ g) (all_exports g) (all_rpc_exports g))%list.

(** The syntax tag the constructor stores; [syntax_] is left empty by the
    unknown-syntax branch, which does not return. *)
Definition syntax_tag (s : Syntax) : string :=
  match s with
  | SYNTAX_PROTO2 => ":proto2"
  | SYNTAX_PROTO3 => ":proto3"
  | SYNTAX_UNKNOWN => ""
  end.

(** The calls up to and including the registration of the schema. *)
Definition calls_before_exports (g : FileGenerator E) : list (Call E) :=
  (header_calls g ++ package_calls g ++ schema_calls g ++ entity_section g ++
   [register_call g])%list.

(** The generator object the constructor builds from a descriptor. *)
Definition built_from (file : FileDescriptor E) (g : FileGenerator E) : Prop :=
  file_ g = file /\
  lisp_package_name_ g = FileLispPackage C file /\
  enums_ g = map (EnumGenerator_new C) (enum_types file) /\
  messages_ g = map (MessageGenerator_new C) (message_types file) /\
  services_ g = map (ServiceGenerator_new C) (services file).

(** *** The namespaces of a file *)

Definition field_namespace (file : FileDescriptor E) (x : string) : Prop :=
  exists m, In m (message_types file) /\
            In x (message_packages C (MessageGenerator_new C m)).

(** The namespaces the specification lists for a file: its own when
    non-empty, the RPC namespace when the file has a service, and those of
    its messages' field types. *)
Definition specified_namespace (file : FileDescriptor E) (x : string) : Prop :=
  (FileLispPackage C file <> "" /\ x = FileLispPackage C file) \/
  (services file <> [] /\ x = FileLispPackage C file ++ "-RPC") \/
  field_namespace file x.

(** The same, with the RPC namespace only for a non-empty own namespace. *)
Definition declared_namespace (file : FileDescriptor E) (x : string) : Prop :=
  (FileLispPackage C file <> "" /\ x = FileLispPackage C file) \/
  (FileLispPackage C file <> "" /\ services file <> [] /\
   x = FileLispPackage C file ++ "-RPC") \/
  field_namespace file x.

(** The calls end with the type export statement followed, in the RPC
    package, by the export statement of the RPC symbols. *)
Definition exports_rpc_symbols (g : FileGenerator E) (locals : Locals)
           (calls : list (Call E)) : Prop :=
  exists pre,
    calls = (pre ++ export_statement (exports locals) ++
             in_package (rpc_package_name g) :: export_statement (rpc_exports locals))%list.

(** *** Observations on a sequence of calls *)

(** What a sequence of calls shows under [f], call by call and in order. *)
Definition collect {B} (f : Call E -> list B) (calls : list (Call E)) : list B :=
  flat_map f calls.

(** The variable maps of the [Print] calls with a given template. *)
Definition printed (text : string) (calls : list (Call E)) : list (list (string * string)) :=
  collect (fun c =>
             match c with
             | Print t vars => if String.eqb t text then [vars] else []
             | _ => []
             end) calls.

Definition is_entity_call (c : Call E) : bool :=
  match c with
  | EnumGenerator_Generate _ | MessageGenerator_Generate _
  | GenerateExtension _ _ | ServiceGenerator_Generate _ => true
  | _ => false
  end.

(** The calls that hand the printer to an entity generator. *)
Definition entity_calls (calls : list (Call E)) : list (Call E) :=
  collect (fun c => if is_entity_call c then [c] else []) calls.

(** The strings written with [PrintRaw]. *)
Definition raw_printed (calls : list (Call E)) : list string :=
  collect (fun c => match c with PrintRaw data => [data] | _ => [] end) calls.

Fixpoint lookup (var : string) (vars : list (string * string)) : option string :=
  match vars with
  | [] => None
  | (k, v) :: vars' => if String.eqb k var then Some v else lookup var vars'
  end.

Definition values_of (var : string) (l : list (list (string * string))) : list string :=
  flat_map (fun vars => match lookup var vars with Some v => [v] | None => [] end) l.

(** The packages declared, in the order of their declarations. *)
Definition declared_packages (calls : list (Call E)) : list string :=
  values_of "package_name" (printed Template.defpackage calls).

(** The packages switched to with [(cl:in-package "...")], in order. *)
Definition entered_packages (calls : list (Call E)) : list string :=
  values_of "package_name" (printed Template.in_package calls).

(** The export statements in a sequence of calls, each with the package
    last switched to by [(cl:in-package "...")] before it: a statement opens
    with [Template.export], takes the strings written raw, and closes with
    [Template.export_close]. *)
Fixpoint export_statements_from (pkg : option string) (open : option (list string))
         (calls : list (Call E)) : list (option string * list string) :=
  match calls with
  | [] => []
  | Print t vars :: rest =>
      if String.eqb t Template.in_package then
        export_statements_from (lookup "package_name" vars) open rest
      else if String.eqb t Template.export then
        export_statements_from pkg (Some []) rest
      else if String.eqb t Template.export_close then
        match open with
        | Some symbols => (pkg, symbols) :: export_statements_from pkg None rest
        | None => export_statements_from pkg None rest
        end
      else export_statements_from pkg open rest
  | PrintRaw data :: rest =>
      export_statements_from pkg (option_map (fun symbols => symbols ++ [data])%list open) rest
  | _ :: rest => export_statements_from pkg open rest
  end.

Definition export_statements (calls : list (Call E)) : list (option string * list string) :=
  export_statements_from None None calls.

End Trace.

(** ** The schema name, in the words of the specification *)

Definition is_separator (c : ascii) : Prop := c = slash \/ c = backslash.

Definition is_period (c : ascii) : Prop := c = period_char.

(** No character of [s] satisfies [P]. *)
Definition free_of (P : ascii -> Prop) (s : string) : Prop :=
  forall c, In c (list_ascii_of_string s) -> ~ P c.

(** [base] is what follows the last forward slash or backslash of [path],
    the whole of [path] when it has neither. *)
Inductive base_name_of (path : string) : string -> Prop :=
| base_whole :
    free_of is_separator path -> base_name_of path path
| base_after (dir : string) (c : ascii) (base : string) :
    path = dir ++ String c base -> is_separator c -> free_of is_separator base ->
    base_name_of path base.

(** [stem] is [base] without its last ['.']-delimited extension, the whole
    of [base] when it has no period. *)
Inductive without_extension (base : string) : string -> Prop :=
| extension_none :
    free_of is_period base -> without_extension base base
| extension_last (stem ext : string) :
    base = stem ++ String period_char ext -> free_of is_period ext ->
    without_extension base stem.

(** ** The printer *)

(** The interface of [io::Printer] that the generators use. *)
Class Printer (P : Type) : Type := {
  printer_Print : string -> list (string * string) -> P -> P;
  printer_PrintRaw : string -> P -> P;
  printer_Indent : P -> P;
  printer_Outdent : P -> P
}.

(** What the entity generators do to a printer. *)
Record Emitters (E : Entities) (P : Type) : Type := {
  enum_Generate : EnumGenerator E -> P -> P;
  message_Generate : MessageGenerator E -> P -> P;
  extension_Generate : FieldDescriptor E -> FileDescriptor E -> P -> P;
  service_Generate : ServiceGenerator E -> P -> P
}.

Section Run.
Context {E : Entities} (C : Collaborators E) {P : Type} `{Printer P} (X : Emitters E P).

Definition perform (c : Call E) (p : P) : P :=
  match c with
  | Print text vars => printer_Print text vars p
  | PrintRaw data => printer_PrintRaw data p
  | Indent => printer_Indent p
  | Outdent => printer_Outdent p
  | EnumGenerator_Generate e => enum_Generate X e p
  | MessageGenerator_Generate m => message_Generate X m p
  | GenerateExtension f file => extension_Generate X f file p
  | ServiceGenerator_Generate s => service_Generate X s p
  end.

Definition run (calls : list (Call E)) (p : P) : P :=
  fold_left (fun p c => perform c p) calls p.

(** The state [GenerateSource] leaves the printer in. *)
Definition print_source (g : FileGenerator E) (p : P) : Outcome P :=
  match GenerateSource C g with
  | Done (_, calls) => Done (run calls p)
  | Fatal msg => Fatal msg
  | OutOfRange => OutOfRange
  end.

(** Two descriptors that read the same through the accessors
    [GenerateSource] uses; the dependencies are only read for their names. *)
Definition same_reading (file1 file2 : FileDescriptor E) : Prop :=
  name file1 = name file2 /\
  package file1 = package file2 /\
  syntax file1 = syntax file2 /\
  map (@name E) (dependencies file1) = map (@name E) (dependencies file2) /\
  enum_types file1 = enum_types file2 /\
  message_types file1 = message_types file2 /\
  extensions file1 = extensions file2 /\
  services file1 = services file2 /\
  FileLispPackage C file1 = FileLispPackage C file2 /\
  (forall f p, extension_Generate X f file1 p = extension_Generate X f file2 p).

End Run.

(** *** A text printer

    A model of [io::Printer] writing to a string: [$name$] substitution, an
    indent inserted at the start of every non-empty line.  The conditions
    the library reports with [GOOGLE_LOG(DFATAL)] (an unclosed or undefined
    variable, an unmatched [Outdent]) leave the printer as it is. *)

Module TextPrinter.

Record t : Type := mk {
  buffer : string;
  indent_ : string;
  at_start_of_line_ : bool
}.

Definition fresh : t := mk "" "" true.

Definition newline : ascii := ascii_of_nat 10.
Definition delimiter : ascii := ascii_of_nat 36.

Definition WriteRaw (data : string) (p : t) : t :=
  match data with
  | EmptyString => p
  | String c _ =>
      let p :=
        if at_start_of_line_ p && negb (Ascii.eqb c newline)
        then mk (buffer p ++ indent_ p) (indent_ p) false
        else p in
      mk (buffer p ++ data) (indent_ p) (at_start_of_line_ p)
  end.

Fixpoint var_lookup (var : string) (vars : list (string * string)) : option string :=
  match vars with
  | [] => None
  | (k, v) :: vars' => if String.eqb k var then Some v else var_lookup var vars'
  end.

Fixpoint print_text (vars : list (string * string)) (text chunk : string) (p : t) : t :=
  match text with
  | EmptyString => WriteRaw chunk p
  | String c rest =>
      if Ascii.eqb c newline then
        let p := WriteRaw (chunk ++ String newline "") p in
        print_text vars rest "" (mk (buffer p) (indent_ p) true)
      else if Ascii.eqb c delimiter then
        print_variable vars rest "" (WriteRaw chunk p)
      else print_text vars rest (chunk ++ String c "") p
  end
with print_variable (vars : list (string * string)) (text varname : string) (p : t) : t :=
  match text with
  | EmptyString => p
  | String c rest =>
      if Ascii.eqb c delimiter then
        let p :=
          match varname with
          | EmptyString => WriteRaw (String delimiter "") p
          | _ => match var_lookup varname vars with
                 | Some value => WriteRaw value p
                 | None => p
                 end
          end in
        print_text vars rest "" p
      else print_variable vars rest (varname ++ String c "") p
  end.

Definition Print (text : string) (vars : list (string * string)) (p : t) : t :=
  print_text vars text "" p.

Definition Indent (p : t) : t :=
  mk (buffer p) (indent_ p ++ "  ") (at_start_of_line_ p).

Definition Outdent (p : t) : t :=
  if Nat.ltb (String.length (indent_ p)) 2 then p
  else mk (buffer p) (substring 0 (String.length (indent_ p) - 2) (indent_ p))
          (at_start_of_line_ p).

#[global] Instance printer : Printer t := {
  printer_Print := Print;
  printer_PrintRaw := WriteRaw;
  printer_Indent := Indent;
  printer_Outdent := Outdent
}.

End TextPrinter.

(** ** A small instance

    Concrete descriptors and collaborators on which the generator can be
    run.  They stand in for the other translation units: an enum reports its
    name and values, a message its symbols and the packages of its field
    types, a service its name and (as RPC symbols) its methods. *)

Module Example.

Record EnumD : Type := { enum_name : string; enum_values : list string }.

Record MessageD : Type := {
  message_name : string;
  message_symbols : list string;
  field_packages : list string
}.

Record ServiceD : Type := { service_name : string; method_names : list string }.

Definition entities : Entities := {|
  EnumDescriptor := EnumD;
  Descriptor := MessageD;
  FieldDescriptor := string;
  ServiceDescriptor := ServiceD;
  EnumGenerator := EnumD;
  MessageGenerator := MessageD;
  ServiceGenerator := ServiceD
|}.

Definition map_char (f : nat -> nat) (lo hi : nat) (c : ascii) : ascii :=
  let n := nat_of_ascii c in
  if (lo <=? n)%nat && (n <=? hi)%nat then ascii_of_nat (f n) else c.

Fixpoint map_string (f : ascii -> ascii) (s : string) : string :=
  match s with
  | EmptyString => EmptyString
  | String c s' => String (f c) (map_string f s')
  end.

Definition to_lower : string -> string := map_string (map_char (fun n => n + 32) 65 90).
Definition to_upper : string -> string := map_string (map_char (fun n => n - 32) 97 122).

Definition collaborators : Collaborators entities :=
  @Build_Collaborators entities
    (* FileLispPackage *) (fun file => to_upper (package file))
    (* StrToLower *) to_lower
    (* DebugString *) (fun file => name file)
    (* EnumGenerator_new *) (fun e : EnumD => e)
    (* MessageGenerator_new *) (fun m : MessageD => m)
    (* ServiceGenerator_new *) (fun s : ServiceD => s)
    (* enum_exports *) (fun e : EnumD => enum_name e :: enum_values e)
    (* message_exports *) (fun m : MessageD => message_name m :: message_symbols m)
    (* service_exports *) (fun s : ServiceD => [service_name s])
    (* service_rpc_exports *) (fun s : ServiceD => method_names s)
    (* message_packages *) (fun m : MessageD => field_packages m).

Definition emit (form : string) (entity_name : string) (p : TextPrinter.t) : TextPrinter.t :=
  TextPrinter.Print (nl ++ "(proto:" ++ form ++ " $name$)") [("name", entity_name)] p.

Definition emitters : Emitters entities TextPrinter.t :=
  @Build_Emitters entities TextPrinter.t
    (* enum_Generate *) (fun e : EnumD => emit "define-enum" (enum_name e))
    (* message_Generate *) (fun m : MessageD => emit "define-message" (message_name m))
    (* extension_Generate *) (fun (f : string) _ => emit "define-extend" f)
    (* service_Generate *) (fun s : ServiceD => emit "define-service" (service_name s)).

Definition file (path pkg : string) (s : Syntax) (deps : list (FileDescriptor entities))
           (es : list EnumD) (ms : list MessageD) (xs : list string) (ss : list ServiceD)
  : FileDescriptor entities :=
  @mkFileDescriptor entities path pkg s deps es ms xs ss.

Definition timestamp : FileDescriptor entities :=
  file "google/protobuf/timestamp.proto" "google.protobuf" SYNTAX_PROTO3 [] [] [] [] [].

(** The same file name in a descriptor that differs in everything else. *)
Definition timestamp' : FileDescriptor entities :=
  file "google/protobuf/timestamp.proto" "elsewhere" SYNTAX_PROTO2 [timestamp] [] [] [] [].

Definition phone_type : EnumD :=
  {| enum_name := "PHONE-TYPE"; enum_values := ["+PHONE-TYPE.MOBILE+"; "+PHONE-TYPE.HOME+"] |}.

Definition person : MessageD :=
  {| message_name := "PERSON";
     message_symbols := ["PERSON.NAME"; "PERSON.ID"];
     field_packages := ["TUTORIAL"; "GOOGLE.PROTOBUF"] |}.

Definition address_book : MessageD :=
  {| message_name := "ADDRESS-BOOK";
     message_symbols := ["ADDRESS-BOOK.PEOPLE"];
     field_packages := ["TUTORIAL"; "ALPHA"] |}.

Definition directory : ServiceD :=
  {| service_name := "DIRECTORY"; method_names := ["CALL-FIND"; "FIND"] |}.

Definition addressbook : FileDescriptor entities :=
  file "protos/AddressBook.proto" "tutorial" SYNTAX_PROTO3 [timestamp]
       [phone_type] [person; address_book] ["nickname"] [directory].

Definition addressbook' : FileDescriptor entities :=
  file "protos/AddressBook.proto" "tutorial" SYNTAX_PROTO3 [timestamp']
       [phone_type] [person; address_book] ["nickname"] [directory].

(** No enums, messages, extensions or services. *)
Definition empty_file : FileDescriptor entities :=
  file "C:\protos\Empty.v2.PROTO" "empty" SYNTAX_PROTO2 [] [] [] [] [].

(** No package, hence an empty lisp package name, and a service. *)
Definition unpackaged : FileDescriptor entities :=
  file "directory.proto" "" SYNTAX_PROTO3 [] [] [] [] [directory].

Definition unknown_syntax : FileDescriptor entities :=
  file "old.proto" "old" SYNTAX_UNKNOWN [] [] [] [] [].

(** The generator object for a file whose syntax is known. *)
Definition generator (f : FileDescriptor entities) : FileGenerator entities :=
  match FileGenerator_new collaborators f with
  | Done g => g
  | _ => @mkFileGenerator entities f "" "" "" [] [] []
  end.


End Example.

(** ** The shape of the output *)

(** What matters of a call for the nesting of the output: the opening of the
    schema form, a schema option ([:syntax], [:package], the opening of
    [:import], an imported name), a change of indentation, the hand-over of
    the printer to an entity generator. *)
Inductive Mark : Type :=
| SchemaOpened
| SchemaOption
| Indented
| Outdented
| EntityGenerated.

Section Shape.
Context {E : Entities}.

Definition is_schema_option (text : string) : bool :=
  String.eqb text Template.syntax || String.eqb text Template.package ||
  String.eqb text Template.import_open || String.eqb text Template.import.

Definition mark (c : Call E) : list Mark :=
  match c with
  | Print text _ =>
      if String.eqb text Template.define_schema then [SchemaOpened]
      else if is_schema_option text then [SchemaOption]
      else []
  | PrintRaw _ => []
  | Indent => [Indented]
  | Outdent => [Outdented]
  | EnumGenerator_Generate _ | MessageGenerator_Generate _
  | GenerateExtension _ _ | ServiceGenerator_Generate _ => [EntityGenerated]
  end.

Definition skeleton (calls : list (Call E)) : list Mark := collect mark calls.

(** The names between the [$] delimiters of a template, in order, as
    [io::Printer::Print] reads them ([$$] reads as the empty name, which
    prints a literal delimiter); [None] when a delimiter is left unclosed. *)
Fixpoint template_variables_from (inside : option string) (text : string)
  : option (list string) :=
  match text with
  | EmptyString => match inside with None => Some [] | Some _ => None end
  | String c rest =>
      if Ascii.eqb c TextPrinter.delimiter then
        match inside with
        | None => template_variables_from (Some "") rest
        | Some var => option_map (cons var) (template_variables_from None rest)
        end
      else
        match inside with
        | None => template_variables_from None rest
        | Some var => template_variables_from (Some (var ++ String c "")) rest
        end
  end.

Definition template_variables (text : string) : option (list string) :=
  template_variables_from None text.

(** A [Print] call whose template is closed, names only variables the call
    supplies, and is supplied no variable it does not name. *)
Definition well_formed_print (c : Call E) : bool :=
  match c with
  | Print text vars =>
      match template_variables text with
      | Some names =>
          forallb (fun var => StdString.empty var ||
                              existsb (fun kv => String.eqb (fst kv) var) vars) names &&
          forallb (fun kv => existsb (String.eqb (fst kv)) names) vars
      | None => false
      end
  | _ => true
  end.

(** The [Print] calls of a sequence that are not well formed. *)
Definition ill_formed_prints (calls : list (Call E)) : list (Call E) :=
  collect (fun c => if well_formed_print c then [] else [c]) calls.

(** What [GenerateSource] prints between its two [Indent] and its two
    [Outdent] calls (lines 118-134): the [:syntax] line, the [:package] and
    [:import] clauses with their separators, and the closing of the schema
    form. *)
Definition schema_option_calls (g : FileGenerator E) : list (Call E) :=
  (Print Template.syntax [("syntax", syntax_ g)] ::
   (if StdString.empty (package (file_ g)) then []
    else [Print "" []; Print Template.package [("pck", package (file_ g))]]) ++
   (if non_empty (dependencies (file_ g)) then
      [Print (if StdString.empty (package (file_ g)) then "" else Template.option_sep) [];
       Print Template.import_open []] ++
      separated "" Template.import_sep import_call (dependencies (file_ g)) ++
      [Print ")" []]
    else []) ++
   [Print Template.schema_close []])%list.


End Shape.

(** ** More files for the small instance *)

Module Scenario.
Import Example.

(** A service that declares no method, hence reports no RPC symbol. *)
Definition idle : ServiceD := {| service_name := "IDLE"; method_names := [] |}.

Definition idle_service : FileDescriptor entities :=
  file "idle.proto" "idle" SYNTAX_PROTO3 [] [] [] [] [idle].

(** The address book under its bare file name. *)
Definition addressbook_here : FileDescriptor entities :=
  file "AddressBook.proto" "tutorial" SYNTAX_PROTO3 [timestamp]
       [phone_type] [person; address_book] ["nickname"] [directory].



(** No service; a message with a field whose type lives in the package
    named like the RPC package of this file. *)
Definition rpc_client : MessageD :=
  {| message_name := "CLIENT";
     message_symbols := [];
     field_packages := ["TUTORIAL-RPC"] |}.

Definition no_service : FileDescriptor entities :=
  file "client.proto" "tutorial" SYNTAX_PROTO3 [] [] [rpc_client] [] [].

(** No package; a message with fields whose types live in packages named
    like this file's own (empty) package and its RPC package. *)
Definition stray : MessageD :=
  {| message_name := "STRAY";
     message_symbols := [];
     field_packages := [""; "-RPC"] |}.

Definition unpackaged_message : FileDescriptor entities :=
  file "stray.proto" "" SYNTAX_PROTO3 [] [] [stray] [] [].

End Scenario.

(** * Proofs *)

(** ** Loops in closed form *)

Section Loops.
Context {E : Entities}.

Lemma fill_from_at A B (f : A -> B) (v pre : list A) :
  fill_from (fun i => (x <- at_ (pre ++ v)%list i ;; Done (f x))%outcome)
            (List.length pre) (List.length v)
  = Done (map f v).
Proof.
  revert pre; induction v as [|x v IH]; intros pre; simpl; [reflexivity|].
  unfold at_ at 1.
  rewrite nth_error_app2, Nat.sub_diag by lia; simpl.
  specialize (IH (pre ++ [x])%list).
  rewrite <- app_assoc, length_app, Nat.add_1_r in IH; simpl in IH.
  rewrite IH; reflexivity.
Qed.

Lemma fill_at A B (f : A -> B) (v : list A) :
  fill (List.length v) (fun i => (x <- at_ v i ;; Done (f x))%outcome) = Done (map f v).
Proof. exact (fill_from_at f v []). Qed.

Lemma bind_ext A B (m : Gen E A) (k1 k2 : A -> Gen E B) :
  (forall a, k1 a = k2 a) -> bind m k1 = bind m k2.
Proof.
  intros Hk; destruct m as [[a out]| |]; simpl; try rewrite Hk; reflexivity.
Qed.

Lemma for_each_from A S (v pre : list A) (s : S)
      (body : nat -> S -> Gen E S) (f : A -> S -> Gen E S) :
  (forall i x s, nth_error (pre ++ v)%list i = Some x -> body i s = f x s) ->
  for_each (seq (List.length pre) (List.length v)) s body = for_each v s f.
Proof.
  revert pre s; induction v as [|x v IH]; intros pre s Hbody; simpl; [reflexivity|].
  rewrite (Hbody (List.length pre) x s)
    by (rewrite nth_error_app2, Nat.sub_diag by lia; reflexivity).
  apply bind_ext; intros s'.
  specialize (IH (pre ++ [x])%list s').
  rewrite length_app, Nat.add_1_r in IH; apply IH.
  intros i y s0; rewrite <- app_assoc; apply Hbody.
Qed.

(** An index loop over a vector of the loop's length visits its elements in
    order. *)
Lemma for_index A S (v : list A) (s : S)
      (body : nat -> S -> Gen E S) (f : A -> S -> Gen E S) :
  (forall i x s, nth_error v i = Some x -> body i s = f x s) ->
  for_ (List.length v) s body = for_each v s f.
Proof. intros Hbody; exact (for_each_from v [] s body f Hbody). Qed.

Lemma for_each_ret A S (h : A -> S -> S) (body : A -> S -> Gen E S) (l : list A) (s : S) :
  (forall x s, body x s = ret (h x s)) ->
  for_each l s body = ret (fold_left (fun s x => h x s) l s).
Proof.
  intros Hbody; revert s; induction l as [|x l IH]; intros s; simpl; [reflexivity|].
  rewrite Hbody; simpl. rewrite IH; reflexivity.
Qed.

Lemma for_each_call A S (h : A -> S -> S) (c : A -> Call E)
      (body : A -> S -> Gen E S) (l : list A) (s : S) :
  (forall x s, body x s = Done (h x s, [c x])) ->
  for_each l s body = Done (fold_left (fun s x => h x s) l s, map c l).
Proof.
  intros Hbody; revert s; induction l as [|x l IH]; intros s; simpl; [reflexivity|].
  rewrite Hbody; simpl. rewrite IH; reflexivity.
Qed.

Lemma for_each_sep A (rest : string) (c : A -> Call E)
      (body : A -> string -> Gen E string) (l : list A) (first : string) :
  (forall x sep, body x sep = Done (rest, [Print sep []; c x])) ->
  for_each l first body
  = Done (match l with [] => first | _ => rest end, separated first rest c l).
Proof.
  intros Hbody; revert first; induction l as [|x l IH]; intros first; simpl; [reflexivity|].
  rewrite Hbody; simpl. rewrite IH. destruct l; reflexivity.
Qed.

Lemma if_Done A (b : bool) (a1 a2 : A) (o1 o2 : list (Call E)) :
  (if b then Done (a1, o1) else Done (a2, o2))
  = Done (if b then a1 else a2, if b then o1 else o2).
Proof. destruct b; reflexivity. Qed.

Lemma fold_left_app_flat_map A B (f : A -> list B) (l : list A) (acc : list B) :
  fold_left (fun acc x => (acc ++ f x)%list) l acc = (acc ++ flat_map f l)%list.
Proof.
  revert acc; induction l as [|x l IH]; intros acc; simpl.
  - now rewrite app_nil_r.
  - now rewrite IH, app_assoc.
Qed.

Lemma fold_left_pair A S T (f : A -> S -> S) (h : A -> T -> T) (l : list A) (s : S) (t : T) :
  fold_left (fun (st : S * T) x => let '(s, t) := st in (f x s, h x t)) l (s, t)
  = (fold_left (fun s x => f x s) l s, fold_left (fun t x => h x t) l t).
Proof.
  revert s t; induction l as [|x l IH]; intros s t; simpl; [reflexivity|apply IH].
Qed.

Lemma positive_length A (l : list A) : (0 <? List.length l)%nat = non_empty l.
Proof. destruct l; reflexivity. Qed.

End Loops.

(** ** The constructor *)

Section ConstructorFacts.
Context {E : Entities} (C : Collaborators E).

Lemma FileGenerator_new_eq (file : FileDescriptor E) :
  FileGenerator_new C file =
  (syntax_ <-
     match syntax file with
     | SYNTAX_PROTO2 => Done ":proto2"
     | SYNTAX_PROTO3 => Done ":proto3"
     | SYNTAX_UNKNOWN => Fatal ("Unknown syntax for file: " ++ DebugString C file)
     end ;;
   schema_name_ <- derive_schema_name C (name file) ;;
   Done (mkFileGenerator file (FileLispPackage C file) schema_name_ syntax_
           (map (EnumGenerator_new C) (enum_types file))
           (map (MessageGenerator_new C) (message_types file))
           (map (ServiceGenerator_new C) (services file))))%outcome.
Proof.
  unfold FileGenerator_new, enum_type_count, message_type_count, service_count,
    enum_type, message_type, service.
  rewrite !fill_at. reflexivity.
Qed.

End ConstructorFacts.

(** ** [std::string] facts *)

Section Strings.

Lemma chars_app (a b : string) :
  list_ascii_of_string (a ++ b) = (list_ascii_of_string a ++ list_ascii_of_string b)%list.
Proof. induction a as [|c a IH]; simpl; [reflexivity|now rewrite IH]. Qed.

Lemma free_of_tail P c s : free_of P (String c s) -> free_of P s.
Proof. intros Hfree d Hd; apply Hfree; right; exact Hd. Qed.

Lemma free_of_head P c s : free_of P (String c s) -> ~ P c.
Proof. intros Hfree; apply Hfree; left; reflexivity. Qed.

Lemma free_of_app_right P a b : free_of P (a ++ b) -> free_of P b.
Proof.
  intros Hfree d Hd; apply Hfree; rewrite chars_app; apply in_or_app; right; exact Hd.
Qed.

Lemma find_last_of_None s chars :
  StdString.find_last_of s chars = None ->
  free_of (fun c => StdString.mem c chars = true) s.
Proof.
  induction s as [|c s IH]; simpl; intros Hfind d Hd; [contradiction|].
  destruct (StdString.find_last_of s chars) eqn:Hs; [discriminate|].
  destruct (StdString.mem c chars) eqn:Hc; [discriminate|].
  destruct Hd as [<-|Hd]; [congruence|]. now apply IH.
Qed.

Lemma find_last_of_Some s chars i :
  StdString.find_last_of s chars = Some i ->
  exists pre c rest,
    s = pre ++ String c rest /\ String.length pre = i /\
    StdString.mem c chars = true /\ StdString.find_last_of rest chars = None.
Proof.
  revert i; induction s as [|c s IH]; simpl; intros i Hfind; [discriminate|].
  destruct (StdString.find_last_of s chars) as [j|] eqn:Hs.
  - injection Hfind as <-.
    destruct (IH j eq_refl) as (pre & d & rest & -> & <- & Hd & Hrest).
    exists (String c pre), d, rest; repeat split; assumption.
  - destruct (StdString.mem c chars) eqn:Hc; [|discriminate].
    injection Hfind as <-.
    exists "", c, s; repeat split; assumption.
Qed.

Lemma substring_skip pre s n :
  substring (String.length pre + n) (String.length s - n) (pre ++ s)
  = substring n (String.length s - n) s.
Proof. induction pre as [|c pre IH]; simpl; [reflexivity|exact IH]. Qed.

Lemma substring_all s : substring 0 (String.length s) s = s.
Proof. induction s as [|c s IH]; simpl; [reflexivity|now rewrite IH]. Qed.

Lemma substring_prefix pre s : substring 0 (String.length pre) (pre ++ s) = pre.
Proof.
  induction pre as [|c pre IH]; simpl; [destruct s; reflexivity|now rewrite IH].
Qed.

Lemma length_append a b : String.length (a ++ b) = String.length a + String.length b.
Proof. induction a as [|c a IH]; simpl; [reflexivity|now rewrite IH]. Qed.

Lemma append_empty_r s : s ++ "" = s.
Proof. induction s as [|c s IH]; simpl; [reflexivity|now rewrite IH]. Qed.

(** Erasing up to and including position [|pre|] leaves what follows it. *)
Lemma erase_through pre c rest :
  StdString.erase (pre ++ String c rest) 0 (Some (String.length pre + 1)) = Some rest.
Proof.
  unfold StdString.erase.
  change (Nat.ltb (String.length (pre ++ String c rest)) 0) with false; cbv iota.
  replace (substring 0 0 (pre ++ String c rest)) with ""
    by (destruct (pre ++ String c rest); reflexivity).
  rewrite length_append; simpl String.length; simpl append.
  replace (String.length pre + S (String.length rest) - (String.length pre + 1))
    with (String.length (String c rest) - 1) by (simpl; lia).
  rewrite substring_skip. simpl. rewrite Nat.sub_0_r, substring_all. reflexivity.
Qed.

(** Erasing from position [|pre|] to the end leaves [pre]. *)
Lemma erase_from pre rest :
  StdString.erase (pre ++ rest) (String.length pre) None = Some pre.
Proof.
  unfold StdString.erase.
  replace (Nat.ltb (String.length (pre ++ rest)) (String.length pre)) with false
    by (symmetry; apply Nat.ltb_ge; rewrite length_append; lia).
  now rewrite substring_prefix, append_empty_r.
Qed.

Lemma in_middle d c e : In c (list_ascii_of_string (d ++ String c e)).
Proof. rewrite chars_app; apply in_or_app; right; left; reflexivity. Qed.

(** The split of a string at its last character satisfying [P] is unique. *)
Lemma last_split_unique (P : ascii -> Prop) d1 c1 b1 d2 c2 b2 :
  d1 ++ String c1 b1 = d2 ++ String c2 b2 ->
  P c1 -> P c2 -> free_of P b1 -> free_of P b2 ->
  d1 = d2 /\ b1 = b2.
Proof.
  revert d2; induction d1 as [|x d1 IH]; intros [|y d2]; simpl; intros Heq Hc1 Hc2 Hb1 Hb2.
  - split; congruence.
  - injection Heq as Hx Hb; subst. exfalso.
    exact (Hb1 c2 (in_middle d2 c2 b2) Hc2).
  - injection Heq as Hx Hb; subst. exfalso.
    exact (Hb2 c1 (in_middle d1 c1 b1) Hc1).
  - injection Heq as Hx Heq; subst.
    destruct (IH d2 Heq Hc1 Hc2 Hb1 Hb2) as [-> ->]. split; reflexivity.
Qed.

Lemma mem_separators c :
  StdString.mem c (String backslash (String slash "")) = true <-> is_separator c.
Proof.
  unfold is_separator; simpl.
  destruct (Ascii.eqb_spec c backslash) as [->|Hb]; [tauto|].
  destruct (Ascii.eqb_spec c slash) as [->|Hs]; [tauto|].
  split; [discriminate|intros [?|?]; contradiction].
Qed.

Lemma mem_period c : StdString.mem c (String period_char "") = true <-> is_period c.
Proof.
  unfold is_period; simpl.
  destruct (Ascii.eqb_spec c period_char) as [->|Hp]; [tauto|].
  split; [discriminate|contradiction].
Qed.

Lemma free_of_iff (P Q : ascii -> Prop) s :
  (forall c, P c <-> Q c) -> free_of P s -> free_of Q s.
Proof. intros HPQ Hfree c Hc HQ; apply (Hfree c Hc); now apply HPQ. Qed.

Lemma base_name_of_unique path b1 b2 :
  base_name_of path b1 -> base_name_of path b2 -> b1 = b2.
Proof.
  intros [Hfree1|d1 c1 b1' Hp1 Hc1 Hb1] [Hfree2|d2 c2 b2' Hp2 Hc2 Hb2].
  - reflexivity.
  - exfalso; apply (Hfree1 c2); [|exact Hc2]. rewrite Hp2; apply in_middle.
  - exfalso; apply (Hfree2 c1); [|exact Hc1]. rewrite Hp1; apply in_middle.
  - apply (@last_split_unique is_separator d1 c1 b1' d2 c2 b2'); [congruence|assumption..].
Qed.

Lemma without_extension_unique base s1 s2 :
  without_extension base s1 -> without_extension base s2 -> s1 = s2.
Proof.
  intros [Hfree1|t1 e1 Hp1 He1] [Hfree2|t2 e2 Hp2 He2].
  - reflexivity.
  - exfalso; apply (Hfree1 period_char); [|reflexivity]. rewrite Hp2; apply in_middle.
  - exfalso; apply (Hfree2 period_char); [|reflexivity]. rewrite Hp1; apply in_middle.
  - apply (@last_split_unique is_period t1 period_char e1 t2 period_char e2);
      [congruence|reflexivity|reflexivity|assumption..].
Qed.

End Strings.

(** ** The schema name and the syntax check *)

Section SchemaName.
Context {E : Entities} (C : Collaborators E).

Lemma derive_schema_name_spec (path : string) :
  exists base stem,
    base_name_of path base /\ without_extension base stem /\
    derive_schema_name C path = Done (StrToLower C stem).
Proof.
  unfold derive_schema_name.
  assert (Hbase : exists base,
             base_name_of path base /\
             match StdString.find_last_of path (String backslash (String slash "")) with
             | Some slash_pos => of_option (StdString.erase path 0 (Some (slash_pos + 1)))
             | None => Done path
             end = Done base).
  { destruct (StdString.find_last_of path _) as [i|] eqn:Hfind.
    - destruct (find_last_of_Some _ _ Hfind) as (pre & c & rest & -> & <- & Hc & Hrest).
      exists rest; split.
      + apply base_after with (dir := pre) (c := c); [reflexivity|now apply mem_separators|].
        eapply free_of_iff; [apply mem_separators|]. now apply find_last_of_None.
      + now rewrite erase_through.
    - exists path; split; [|reflexivity].
      apply base_whole. eapply free_of_iff; [apply mem_separators|].
      now apply find_last_of_None. }
  destruct Hbase as (base & Hbase & ->); simpl obind.
  exists base. unfold StdString.rfind.
  destruct (StdString.find_last_of base _) as [i|] eqn:Hfind.
  - destruct (find_last_of_Some _ _ Hfind) as (stem & c & ext & -> & <- & Hc & Hext).
    apply mem_period in Hc; red in Hc; subst c.
    exists stem; split; [assumption|split].
    + apply extension_last with (ext := ext); [reflexivity|].
      eapply free_of_iff; [apply mem_period|]. now apply find_last_of_None.
    + now rewrite erase_from.
  - exists base; split; [assumption|split; [|reflexivity]].
    apply extension_none. eapply free_of_iff; [apply mem_period|].
    now apply find_last_of_None.
Qed.

(** What the constructor returns for a known syntax. *)
Lemma FileGenerator_new_Done (file : FileDescriptor E) (g : FileGenerator E) :
  FileGenerator_new C file = Done g ->
  built_from C file g /\
  syntax file <> SYNTAX_UNKNOWN /\
  syntax_ g = syntax_tag (syntax file) /\
  derive_schema_name C (name file) = Done (schema_name_ g).
Proof.
  rewrite FileGenerator_new_eq.
  destruct (derive_schema_name_spec (name file)) as (base & stem & _ & _ & Hname).
  rewrite Hname.
  destruct (syntax file); simpl; intros Hg; [discriminate| |];
    injection Hg as <-; (split; [repeat split|split; [discriminate|split; reflexivity]]).
Qed.

(** C2: constructing a [FileGenerator] for a file of unknown syntax takes the
    [GOOGLE_LOG(FATAL)] branch, so there is no generator to run; for proto2
    the generator stores the syntax tag [":proto2"] and for proto3
    [":proto3"]. *)
Theorem unknown_syntax_is_fatal (file : FileDescriptor E) :
  match syntax file with
  | SYNTAX_UNKNOWN =>
      FileGenerator_new C file = Fatal ("Unknown syntax for file: " ++ DebugString C file) /\
      forall g, FileGenerator_new C file <> Done g
  | SYNTAX_PROTO2 =>
      exists g, FileGenerator_new C file = Done g /\ syntax_ g = ":proto2"
  | SYNTAX_PROTO3 =>
      exists g, FileGenerator_new C file = Done g /\ syntax_ g = ":proto3"
  end.
Proof.
  rewrite FileGenerator_new_eq.
  destruct (derive_schema_name_spec (name file)) as (base & stem & _ & _ & Hname).
  rewrite Hname.
  destruct (syntax file); simpl.
  - split; [reflexivity|discriminate].
  - eexists; split; reflexivity.
  - eexists; split; reflexivity.
Qed.

(** C5: the schema name is the base name of the file path (what follows its
    last forward slash or backslash), without its last ['.']-delimited
    extension, lower-cased; that base name and stem are unique. *)
Theorem schema_name_is_normalized_base_name (file : FileDescriptor E) (g : FileGenerator E) :
  FileGenerator_new C file = Done g ->
  exists base stem,
    base_name_of (name file) base /\
    without_extension base stem /\
    schema_name_ g = StrToLower C stem /\
    (forall base' stem',
        base_name_of (name file) base' -> without_extension base' stem' -> stem' = stem).
Proof.
  intros Hg. apply FileGenerator_new_Done in Hg as (_ & _ & _ & Hname).
  destruct (derive_schema_name_spec (name file)) as (base & stem & Hbase & Hstem & Hname').
  exists base, stem; split; [assumption|split; [assumption|split; [congruence|]]].
  intros base' stem' Hbase' Hstem'.
  rewrite (base_name_of_unique Hbase' Hbase) in Hstem'.
  exact (without_extension_unique Hstem' Hstem).
Qed.

End SchemaName.

(** ** [GenerateSource] computes the calls of [trace] *)

Section RunFacts.
Context {E : Entities} (C : Collaborators E).

Lemma bind_Done A B (m : Gen E A) (k : A -> Gen E B) a o1 b o2 :
  m = Done (a, o1) -> k a = Done (b, o2) -> bind m k = Done (b, (o1 ++ o2)%list).
Proof. intros -> Hk; simpl; now rewrite Hk. Qed.

Lemma if_run A (c : bool) (m1 m2 : Gen E A) a1 o1 a2 o2 :
  m1 = Done (a1, o1) -> m2 = Done (a2, o2) ->
  (if c then m1 else m2) = Done (if c then a1 else a2, if c then o1 else o2).
Proof. intros -> ->; destruct c; reflexivity. Qed.

Lemma at_lift A B (v : list A) i x (k : A -> Gen E B) :
  nth_error v i = Some x -> bind (lift (at_ v i)) k = bind (ret x) k.
Proof. intros Hx; unfold at_; now rewrite Hx. Qed.

Lemma if_non_empty_run A S (l : list A) (m : Gen E S) (s r : S) (o : list (Call E)) :
  m = Done (r, o) -> (l = [] -> r = s) ->
  (if non_empty l then m else ret s) = Done (r, if non_empty l then o else []).
Proof.
  intros -> Hnil; destruct l; simpl; [|reflexivity]. now rewrite Hnil.
Qed.

(** A loop that hands the printer to each entity and appends its exports. *)
Lemma export_loop A (v : list A) (emit : A -> Call E) (symbols : A -> list string)
      (body : nat -> list string -> Gen E (list string)) (exports : list string) :
  (forall i x exports,
      nth_error v i = Some x -> body i exports = Done ((exports ++ symbols x)%list, [emit x])) ->
  for_ (List.length v) exports body
  = Done ((exports ++ flat_map symbols v)%list, map emit v).
Proof.
  intros Hbody.
  rewrite for_index with (f := fun x exports => Done ((exports ++ symbols x)%list, [emit x]))
    by exact Hbody.
  rewrite for_each_call with (h := fun x exports => (exports ++ symbols x)%list) (c := emit)
    by reflexivity.
  now rewrite fold_left_app_flat_map.
Qed.

Lemma service_loop A (v : list A) (emit : A -> Call E) (symbols rpc_symbols : A -> list string)
      (body : nat -> list string * list string -> Gen E (list string * list string))
      (exports rpc_exports : list string) :
  (forall i x exports rpc_exports,
      nth_error v i = Some x ->
      body i (exports, rpc_exports)
      = Done (((exports ++ symbols x)%list, (rpc_exports ++ rpc_symbols x)%list), [emit x])) ->
  for_ (List.length v) (exports, rpc_exports) body
  = Done (((exports ++ flat_map symbols v)%list, (rpc_exports ++ flat_map rpc_symbols v)%list),
          map emit v).
Proof.
  intros Hbody.
  rewrite for_index with
    (f := fun x (st : list string * list string) =>
            Done (let '(e, r) := st in ((e ++ symbols x)%list, (r ++ rpc_symbols x)%list),
                  [emit x]))
    by (intros i x [e r] Hx; now apply Hbody).
  rewrite for_each_call with
    (h := fun x (st : list string * list string) =>
            let '(e, r) := st in ((e ++ symbols x)%list, (r ++ rpc_symbols x)%list))
    (c := emit) by reflexivity.
  now rewrite fold_left_pair, !fold_left_app_flat_map.
Qed.

Lemma negb_is_nil A (l : list A) :
  negb (match l with [] => true | _ :: _ => false end) = non_empty l.
Proof. destruct l; reflexivity. Qed.

Lemma export_statement_run (symbols : list string) :
  (call (Print Template.export []) ;;
   for_each symbols "("
     (fun e sep => call (Print sep []) ;; call (PrintRaw e) ;; ret Template.export_sep) ;;
   call (Print Template.export_close []))%gen
  = Done (tt, export_statement (E := E) symbols).
Proof.
  rewrite for_each_sep with (rest := Template.export_sep) (c := PrintRaw) by reflexivity.
  reflexivity.
Qed.

Ltac run_step :=
  cbv beta iota zeta;
  lazymatch goal with
  | |- bind (call _) _ = _ => eapply bind_Done; [reflexivity|]
  | |- bind _ _ = _ => eapply bind_Done
  | |- call _ = _ => reflexivity
  | |- ret _ = _ => reflexivity
  | |- (if _ then _ else _) = _ => eapply if_run
  end.

Lemma GenerateSource_run (file : FileDescriptor E) (g : FileGenerator E) :
  built_from C file g ->
  GenerateSource C g
  = Done (mkLocals (all_packages C g) (all_exports C g) (all_rpc_exports C g), trace C g).
Proof.
  intros (Hfile & Hlisp & Henums & Hmsgs & Hsvcs).
  assert (He : enum_type_count (file_ g) = List.length (enums_ g))
    by (unfold enum_type_count; now rewrite Hfile, Henums, length_map).
  assert (Hm : message_type_count (file_ g) = List.length (messages_ g))
    by (unfold message_type_count; now rewrite Hfile, Hmsgs, length_map).
  assert (Hs : service_count (file_ g) = List.length (services_ g))
    by (unfold service_count; now rewrite Hfile, Hsvcs, length_map).
  assert (Hs' : non_empty (services_ g) = non_empty (services (file_ g)))
    by (rewrite Hfile, Hsvcs; destruct (services file); reflexivity).
  eassert (Hrun : GenerateSource C g = Done (_, _)).
  { unfold GenerateSource.
    rewrite He, Hm, Hs. unfold extension_count, dependency_count, extension, dependency.
    rewrite !positive_length.
    do 2 run_step.
    run_step.
    { rewrite for_index with (f := fun m packages => ret (MessageGenerator_AddPackages C m packages))
        by (intros i x s Hx; now erewrite at_lift by eassumption).
      apply for_each_ret with (h := fun m packages => MessageGenerator_AddPackages C m packages).
      reflexivity. }
    run_step.
    run_step.
    { apply for_each_call with (h := fun _ _ => tt) (c := declare_package). reflexivity. }
    run_step.
    { run_step; run_step. }
    do 4 run_step.
    run_step.
    { run_step; repeat run_step. }
    run_step.
    { run_step; [|run_step].
      do 2 run_step. run_step.
      { rewrite for_index with
          (f := fun d sep => bind (call (Print sep []))
                 (fun _ => bind (call (import_call d)) (fun _ => ret Template.import_sep))).
        - apply for_each_sep with (c := import_call). reflexivity.
        - intros i x s Hx. apply bind_ext; intros _. now erewrite at_lift by eassumption. }
      repeat run_step. }
    do 3 run_step.
    run_step.
    { eapply if_non_empty_run.
      - run_step. apply export_loop with (emit := EnumGenerator_Generate) (symbols := enum_exports C).
        intros i x s Hx. now erewrite at_lift by eassumption.
      - intros ->; apply app_nil_r. }
    run_step.
    { eapply if_non_empty_run.
      - run_step. apply export_loop with (emit := MessageGenerator_Generate) (symbols := message_exports C).
        intros i x s Hx. now erewrite at_lift by eassumption.
      - intros ->; apply app_nil_r. }
    run_step.
    { eapply if_non_empty_run.
      - run_step.
        rewrite for_index with (f := fun f (_ : unit) => call (GenerateExtension f (file_ g))).
        + apply for_each_call with (h := fun _ _ => tt)
                                   (c := fun f => GenerateExtension f (file_ g)).
          reflexivity.
        + intros i x s Hx. erewrite at_lift by eassumption. reflexivity.
      - intros ->; reflexivity. }
    run_step.
    { eapply if_non_empty_run.
      - run_step.
        apply service_loop with (emit := ServiceGenerator_Generate)
                                (symbols := service_exports C)
                                (rpc_symbols := service_rpc_exports C).
        intros i x e r Hx. now erewrite at_lift by eassumption.
      - intros ->; simpl; now rewrite app_nil_r. }
    do 2 run_step.
    rewrite <- !app_assoc; cbn [app].
    fold (all_exports C g) (all_rpc_exports C g).
    rewrite !negb_is_nil.
    run_step.
    { run_step.
      - change (negb false) with true; cbv iota. apply export_statement_run.
      - cbv beta. run_step; [|run_step].
        run_step. apply export_statement_run. }
    run_step. run_step. }
  rewrite Hrun; clear Hrun.
  unfold trace, header_calls, package_calls, schema_calls, entity_section, group,
    export_section, all_packages, add_message_packages, own_packages, register_call,
    in_package, rpc_package_name.
  rewrite <- Hs'.
  f_equal. f_equal.
  - unfold all_exports, all_rpc_exports. rewrite <- !app_assoc.
    destruct (StdString.empty (lisp_package_name_ g)); reflexivity.
  - destruct (StdString.empty (lisp_package_name_ g)), (StdString.empty (package (file_ g)));
      cbn [negb app]; rewrite <- ?app_assoc; cbn [app]; rewrite ?app_nil_r.
    all: try reflexivity.
Qed.
End RunFacts.

(** ** Observations on the calls of [trace] *)

Section Observations.
Context {E : Entities} (C : Collaborators E).

Section Collect.
Context {B : Type} (f : Call E -> list B).

Lemma collect_app (a b : list (Call E)) :
  collect f (a ++ b)%list = (collect f a ++ collect f b)%list.
Proof. apply flat_map_app. Qed.

Lemma collect_if (c : bool) (a b : list (Call E)) :
  collect f (if c then a else b) = if c then collect f a else collect f b.
Proof. destruct c; reflexivity. Qed.

Lemma collect_cons (c : Call E) (l : list (Call E)) :
  collect f (c :: l) = (collect f [c] ++ collect f l)%list.
Proof. exact (collect_app [c] l). Qed.

Lemma collect_one (c : Call E) : collect f [c] = f c.
Proof. apply app_nil_r. Qed.

Lemma collect_map A (c : A -> Call E) (l : list A) :
  collect f (map c l) = flat_map (fun x => f (c x)) l.
Proof.
  induction l as [|x l IH]; [reflexivity|].
  cbn [map flat_map]. now rewrite collect_cons, collect_one, IH.
Qed.

Lemma collect_separated A (first rest : string) (c : A -> Call E) (l : list A) :
  f (Print first []) = [] -> f (Print rest []) = [] ->
  collect f (separated first rest c l) = collect f (map c l).
Proof.
  intros Hfirst Hrest; revert first Hfirst; induction l as [|x l IH]; intros first Hfirst;
    [reflexivity|].
  cbn [separated map].
  rewrite (collect_cons (Print first [])), (collect_cons (c x) (separated _ _ _ _)),
    (collect_cons (c x) (map c l)), IH by assumption.
  now rewrite collect_one, Hfirst.
Qed.

End Collect.

Lemma if_same A (c : bool) (a : A) : (if c then a else a) = a.
Proof. destruct c; reflexivity. Qed.

Lemma flat_map_nil A B (l : list A) : flat_map (fun _ => @nil B) l = [].
Proof. induction l; simpl; auto. Qed.

Lemma flat_map_singleton A B (f : A -> B) (l : list A) : flat_map (fun x => [f x]) l = map f l.
Proof. induction l as [|x l IH]; simpl; [reflexivity|now rewrite IH]. Qed.

Lemma guarded_flat_map A B (f : A -> B) (l : list A) :
  (if non_empty l then flat_map (fun x => [f x]) l else []) = map f l.
Proof. destruct l; [reflexivity|apply flat_map_singleton]. Qed.

Lemma eqb_if (c : bool) (a b t : string) :
  String.eqb (if c then a else b) t = if c then String.eqb a t else String.eqb b t.
Proof. destruct c; reflexivity. Qed.

Ltac eval_eqb :=
  repeat match goal with
    | |- context [String.eqb ?a ?b] =>
        let v := eval vm_compute in (String.eqb a b) in
        lazymatch v with
        | true => change (String.eqb a b) with true
        | false => change (String.eqb a b) with false
        end
    end.

Ltac push_collect :=
  repeat first
    [ rewrite collect_app
    | rewrite collect_if
    | rewrite collect_separated by (vm_compute; reflexivity)
    | rewrite collect_map
    | match goal with
      | |- context [collect ?f (?c :: ?l)] =>
          lazymatch l with
          | [] => fail
          | _ => rewrite (collect_cons f c l)
          end
      end ].

Ltac observe :=
  unfold printed, entity_calls, raw_printed;
  unfold trace, header_calls, package_calls, schema_calls, entity_section, group,
    export_section, export_statement, register_call, in_package;
  push_collect;
  unfold declare_package, import_call;
  cbn [collect flat_map app is_entity_call]; rewrite ?eqb_if; eval_eqb; cbn iota;
  rewrite ?flat_map_nil, ?if_same; cbn [app];
  rewrite ?app_nil_r, ?if_same.

Lemma printed_defpackage (g : FileGenerator E) :
  printed Template.defpackage (trace C g)
  = map (fun p => [("package_name", p)]) (StringSet.elements (all_packages C g)).
Proof. observe. apply flat_map_singleton. Qed.

Lemma printed_in_package (g : FileGenerator E) :
  printed Template.in_package (trace C g)
  = if StdString.empty (lisp_package_name_ g) then []
    else [("package_name", lisp_package_name_ g)] ::
         (if non_empty (all_rpc_exports C g)
          then [[("package_name", rpc_package_name g)]] else []).
Proof. observe. destruct (StdString.empty (lisp_package_name_ g)); reflexivity. Qed.

Lemma printed_export (g : FileGenerator E) :
  printed Template.export (trace C g)
  = if StdString.empty (lisp_package_name_ g) then []
    else [] :: (if non_empty (all_rpc_exports C g) then [[]] else []).
Proof. observe. reflexivity. Qed.

Lemma raw_printed_trace (g : FileGenerator E) :
  raw_printed (trace C g)
  = if StdString.empty (lisp_package_name_ g) then []
    else (all_exports C g ++ all_rpc_exports C g)%list.
Proof.
  observe. rewrite !(guarded_flat_map (fun x => x)), !map_id. reflexivity.
Qed.

Lemma entity_calls_trace (g : FileGenerator E) :
  entity_calls (trace C g)
  = (map EnumGenerator_Generate (enums_ g) ++
     map MessageGenerator_Generate (messages_ g) ++
     map (fun f => GenerateExtension f (file_ g)) (extensions (file_ g)) ++
     map ServiceGenerator_Generate (services_ g))%list.
Proof. observe. now rewrite !guarded_flat_map. Qed.

Lemma printed_syntax (g : FileGenerator E) :
  printed Template.syntax (trace C g) = [[("syntax", syntax_ g)]].
Proof. observe. reflexivity. Qed.

Lemma printed_package (g : FileGenerator E) :
  printed Template.package (trace C g)
  = if StdString.empty (package (file_ g)) then [] else [[("pck", package (file_ g))]].
Proof. observe. reflexivity. Qed.

Lemma printed_import_open (g : FileGenerator E) :
  printed Template.import_open (trace C g)
  = if non_empty (dependencies (file_ g)) then [[]] else [].
Proof. observe. reflexivity. Qed.

Lemma printed_import (g : FileGenerator E) :
  printed Template.import (trace C g)
  = map (fun d => [("import", name d)]) (dependencies (file_ g)).
Proof. observe. apply guarded_flat_map. Qed.

(** *** Export statements *)

Lemma printed_Print_nil t text vars (l : list (Call E)) :
  printed t (Print text vars :: l) = [] -> String.eqb text t = false /\ printed t l = [].
Proof.
  unfold printed; rewrite collect_cons, collect_one.
  destruct (String.eqb text t); [discriminate|]. auto.
Qed.

Lemma printed_other_nil t (c : Call E) (l : list (Call E)) :
  printed t (c :: l) = [] -> printed t l = [].
Proof.
  unfold printed; rewrite collect_cons, collect_one. intros H.
  now apply app_eq_nil in H.
Qed.

(** Calls that neither switch packages nor open an export statement leave
    the statements of what follows unchanged. *)
Lemma export_statements_skip pkg (l rest : list (Call E)) :
  printed Template.in_package l = [] -> printed Template.export l = [] ->
  export_statements_from pkg None (l ++ rest) = export_statements_from pkg None rest.
Proof.
  induction l as [|c l IH]; intros Hin Hex; [reflexivity|].
  destruct c as [text vars|data| | |e|m|f file|s]; cbn [app export_statements_from].
  - apply printed_Print_nil in Hin as (-> & Hin), Hex as (-> & Hex).
    destruct (String.eqb text Template.export_close); now apply IH.
  - apply printed_other_nil in Hin, Hex. cbn [option_map]. now apply IH.
  - apply printed_other_nil in Hin, Hex. now apply IH.
  - apply printed_other_nil in Hin, Hex. now apply IH.
  - apply printed_other_nil in Hin, Hex. now apply IH.
  - apply printed_other_nil in Hin, Hex. now apply IH.
  - apply printed_other_nil in Hin, Hex. now apply IH.
  - apply printed_other_nil in Hin, Hex. now apply IH.
Qed.

Lemma export_statements_symbols pkg (first : string) (symbols acc : list string)
      (rest : list (Call E)) :
  first = "(" \/ first = Template.export_sep ->
  export_statements_from pkg (Some acc)
    (separated first Template.export_sep PrintRaw symbols ++
     Print Template.export_close [] :: rest)
  = (pkg, (acc ++ symbols)%list) :: export_statements_from pkg None rest.
Proof.
  revert first acc; induction symbols as [|x symbols IH]; intros first acc Hfirst.
  - rewrite app_nil_r. reflexivity.
  - cbn [separated app].
    assert (Hstep : forall tail : list (Call E),
               export_statements_from pkg (Some acc) (Print first [] :: PrintRaw x :: tail)
               = export_statements_from pkg (Some (acc ++ [x])%list) tail)
      by (intros tail; destruct Hfirst as [-> | ->]; reflexivity).
    rewrite Hstep, IH by (right; reflexivity).
    now rewrite <- app_assoc.
Qed.

Lemma export_statements_statement pkg (symbols : list string) (rest : list (Call E)) :
  export_statements_from pkg None (export_statement symbols ++ rest)
  = (pkg, symbols) :: export_statements_from pkg None rest.
Proof.
  unfold export_statement. cbn [app]. rewrite <- app_assoc.
  change (export_statements_from pkg None (Print Template.export [] :: ?l))
    with (export_statements_from pkg (Some []) l).
  apply export_statements_symbols with (acc := @nil string). left; reflexivity.
Qed.

Lemma export_statements_trace (g : FileGenerator E) :
  export_statements (trace C g)
  = if StdString.empty (lisp_package_name_ g) then []
    else (Some (lisp_package_name_ g), all_exports C g) ::
         (if non_empty (all_rpc_exports C g)
          then [(Some (rpc_package_name g), all_rpc_exports C g)] else []).
Proof.
  unfold export_statements.
  assert (Hsplit : trace C g
          = ((header_calls g ++ Print Template.declaim [] ::
              map declare_package (StringSet.elements (all_packages C g))) ++
             (if StdString.empty (lisp_package_name_ g) then []
              else [in_package (lisp_package_name_ g)]) ++
             (schema_calls g ++ entity_section g ++ [register_call g]) ++
             export_section (lisp_package_name_ g) (all_exports C g) (all_rpc_exports C g))%list).
  { unfold trace, package_calls. cbn [app]. rewrite <- !app_assoc. reflexivity. }
  rewrite Hsplit; clear Hsplit.
  rewrite export_statements_skip.
  2,3: unfold printed, header_calls; push_collect; unfold declare_package;
       cbn [collect flat_map app]; eval_eqb; cbn iota; now rewrite ?flat_map_nil.
  assert (Hquiet : forall pkg rest,
             export_statements_from pkg None
               ((schema_calls g ++ entity_section g ++ [register_call g]) ++ rest)
             = export_statements_from pkg None rest).
  { intros pkg rest. apply export_statements_skip.
    all: unfold printed, schema_calls, entity_section, group, register_call; push_collect;
      unfold import_call; cbn [collect flat_map app]; rewrite ?eqb_if; eval_eqb; cbn iota;
      now rewrite ?flat_map_nil, ?if_same. }
  unfold export_section.
  destruct (StdString.empty (lisp_package_name_ g)).
  - cbn [app]. rewrite Hquiet. reflexivity.
  - cbn [app].
    change (export_statements_from None None (in_package (lisp_package_name_ g) :: ?l))
      with (export_statements_from (Some (lisp_package_name_ g)) None l).
    rewrite Hquiet.
    change (non_empty (all_exports C g)) with true; cbv iota.
    rewrite export_statements_statement. f_equal.
    destruct (non_empty (all_rpc_exports C g)); [|reflexivity].
    cbn [app].
    change (export_statements_from (Some (lisp_package_name_ g)) None
              (in_package (lisp_package_name_ g ++ "-RPC") :: ?l))
      with (export_statements_from (Some (rpc_package_name g)) None l).
    rewrite <- (app_nil_r (export_statement (all_rpc_exports C g))).
    now rewrite export_statements_statement.
Qed.

Lemma trace_split (g : FileGenerator E) :
  trace C g
  = (calls_before_exports C g ++
     export_section (lisp_package_name_ g) (all_exports C g) (all_rpc_exports C g))%list.
Proof. unfold trace, calls_before_exports. now rewrite <- !app_assoc. Qed.

Lemma printed_export_before (g : FileGenerator E) :
  printed Template.export (calls_before_exports C g) = [].
Proof. unfold calls_before_exports. observe. reflexivity. Qed.

Lemma raw_printed_before (g : FileGenerator E) :
  raw_printed (calls_before_exports C g) = [].
Proof. unfold calls_before_exports. observe. reflexivity. Qed.

Lemma export_section_nonempty (g : FileGenerator E) :
  lisp_package_name_ g <> "" ->
  export_section (E := E) (lisp_package_name_ g) (all_exports C g) (all_rpc_exports C g)
  = (export_statement (all_exports C g) ++
     (if non_empty (all_rpc_exports C g)
      then in_package (rpc_package_name g) :: export_statement (all_rpc_exports C g)
      else []))%list.
Proof.
  intros Hnonempty. unfold export_section.
  destruct (StdString.empty (lisp_package_name_ g)) eqn:Hempty; [|reflexivity].
  destruct (lisp_package_name_ g); [congruence|discriminate].
Qed.

(** *** Titles, separators and the shape of the output *)

Lemma printed_enums (g : FileGenerator E) :
  printed Template.enums (trace C g) = if non_empty (enums_ g) then [[]] else [].
Proof. observe. reflexivity. Qed.

Lemma printed_messages (g : FileGenerator E) :
  printed Template.messages (trace C g) = if non_empty (messages_ g) then [[]] else [].
Proof. observe. reflexivity. Qed.

Lemma printed_extensions (g : FileGenerator E) :
  printed Template.extensions (trace C g)
  = if non_empty (extensions (file_ g)) then [[]] else [].
Proof. observe. reflexivity. Qed.

Lemma printed_services (g : FileGenerator E) :
  printed Template.services (trace C g) = if non_empty (services_ g) then [[]] else [].
Proof. observe. reflexivity. Qed.

Lemma printed_define_schema (g : FileGenerator E) :
  printed Template.define_schema (trace C g) = [[("schema_name", schema_name_ g)]].
Proof. observe. reflexivity. Qed.

Lemma printed_register (g : FileGenerator E) :
  printed Template.register (trace C g)
  = [[("file_name", name (file_ g)); ("schema_name", schema_name_ g)]].
Proof. observe. reflexivity. Qed.

Lemma flat_map_const A B (b : B) (l : list A) :
  flat_map (fun _ => [b]) l = repeat b (List.length l).
Proof. induction l as [|x l IH]; simpl; [reflexivity|now rewrite IH]. Qed.

Lemma guarded_repeat A B (b : B) (l : list A) :
  (if non_empty l then repeat b (List.length l) else []) = repeat b (List.length l).
Proof. destruct l; reflexivity. Qed.

(** The separator [rest] is printed before every item but the first. *)
Lemma printed_separated_rest A (first rest : string) (c : A -> Call E) (l : list A) :
  String.eqb first rest = false ->
  (forall x, printed rest [c x] = []) ->
  printed rest (separated first rest c l) = repeat [] (pred (List.length l)).
Proof.
  intros Hfirst Hc.
  assert (Hitem : forall x tail, printed rest (c x :: tail) = printed rest tail).
  { intros x tail. unfold printed. rewrite collect_cons. fold (printed rest [c x]).
    now rewrite Hc. }
  assert (Hsep : forall tail : list (Call E),
             printed rest (Print rest [] :: tail) = [] :: printed rest tail).
  { intros tail. unfold printed. rewrite collect_cons, collect_one.
    now rewrite String.eqb_refl. }
  assert (Hfirst' : forall tail : list (Call E),
             printed rest (Print first [] :: tail) = printed rest tail).
  { intros tail. unfold printed. rewrite collect_cons, collect_one. now rewrite Hfirst. }
  destruct l as [|x l]; [reflexivity|].
  cbn [separated List.length pred]. rewrite Hfirst', Hitem.
  induction l as [|y l IH]; [reflexivity|].
  cbn [separated List.length repeat]. now rewrite Hsep, Hitem, IH.
Qed.

Lemma skeleton_trace (g : FileGenerator E) :
  skeleton (trace C g)
  = ([SchemaOpened; Indented; Indented] ++
     repeat SchemaOption
       (1 + (if StdString.empty (package (file_ g)) then 0 else 1) +
        (if non_empty (dependencies (file_ g))
         then 1 + List.length (dependencies (file_ g)) else 0)) ++
     [Outdented; Outdented] ++
     repeat EntityGenerated
       (List.length (enums_ g) + List.length (messages_ g) +
        List.length (extensions (file_ g)) + List.length (services_ g)))%list.
Proof.
  unfold skeleton.
  unfold trace, header_calls, package_calls, schema_calls, entity_section, group,
    export_section, export_statement, register_call, in_package.
  push_collect.
  unfold declare_package, import_call.
  cbn [collect flat_map app mark]. unfold is_schema_option.
  rewrite ?eqb_if; eval_eqb; cbn [orb]; cbv iota.
  rewrite ?flat_map_nil, ?flat_map_const, ?guarded_repeat, ?if_same; cbn [app].
  rewrite ?app_nil_r, ?if_same.
  rewrite !guarded_repeat, !repeat_app.
  destruct (StdString.empty (package (file_ g))), (non_empty (dependencies (file_ g)));
    cbn [orb app repeat Nat.add]; rewrite <- ?app_assoc; reflexivity.
Qed.

Lemma flat_map_ext_nil A B (h : A -> list B) (l : list A) :
  (forall x, h x = []) -> flat_map h l = [].
Proof. intros Hh; induction l as [|x l IH]; simpl; [reflexivity|now rewrite Hh, IH]. Qed.

Lemma ill_formed_prints_trace (g : FileGenerator E) : ill_formed_prints (trace C g) = [].
Proof.
  unfold ill_formed_prints.
  unfold trace, header_calls, package_calls, schema_calls, entity_section, group,
    export_section, export_statement, register_call, in_package.
  push_collect.
  unfold declare_package, import_call.
  rewrite !flat_map_ext_nil by (intros; vm_compute; reflexivity).
  destruct (StdString.empty (package (file_ g))).
  all: rewrite ?collect_one, ?if_same.
  all: repeat match goal with
         | |- context [well_formed_print ?c] =>
             let v := eval vm_compute in (well_formed_print c) in
             lazymatch v with
             | true => change (well_formed_print c) with true
             end
         end.
  all: cbv iota; cbn [app]; rewrite ?if_same; reflexivity.
Qed.

Ltac count_separators sep :=
  unfold printed;
  unfold trace, header_calls, package_calls, schema_calls, entity_section, group,
    export_section, export_statement, register_call, in_package;
  push_collect;
  repeat match goal with
    | |- context [collect ?f (separated ?a sep ?c ?l)] =>
        change (collect f (separated a sep c l)) with (printed sep (separated a sep c l));
        rewrite (@printed_separated_rest _ a sep c l)
          by first [vm_compute; reflexivity | intros; vm_compute; reflexivity]
    end;
  push_collect;
  unfold declare_package, import_call;
  cbn [collect flat_map app]; rewrite ?eqb_if; eval_eqb; cbn iota;
  rewrite ?flat_map_nil, ?if_same; cbn [app];
  rewrite ?app_nil_r, ?if_same.

Lemma printed_import_sep (g : FileGenerator E) :
  printed Template.import_sep (trace C g)
  = repeat [] (pred (List.length (dependencies (file_ g)))).
Proof.
  count_separators Template.import_sep.
  destruct (dependencies (file_ g)); reflexivity.
Qed.

Lemma printed_option_sep (g : FileGenerator E) :
  printed Template.option_sep (trace C g)
  = if non_empty (dependencies (file_ g)) && negb (StdString.empty (package (file_ g)))
    then [[]] else [].
Proof.
  observe.
  destruct (non_empty (dependencies (file_ g))), (StdString.empty (package (file_ g)));
    reflexivity.
Qed.

Lemma printed_export_sep (g : FileGenerator E) :
  printed Template.export_sep (trace C g)
  = if StdString.empty (lisp_package_name_ g) then []
    else repeat [] (pred (List.length (all_exports C g)) +
                    pred (List.length (all_rpc_exports C g))).
Proof.
  count_separators Template.export_sep.
  destruct (StdString.empty (lisp_package_name_ g)); [reflexivity|].
  change (non_empty (all_exports C g)) with true. cbv iota.
  rewrite repeat_app. f_equal.
  destruct (all_rpc_exports C g); reflexivity.
Qed.

(** *** The phases of the output *)

Ltac observe_shape :=
  unfold skeleton, printed, raw_printed;
  unfold header_calls, package_calls, schema_calls, entity_section, group,
    export_section, export_statement, register_call, in_package;
  push_collect;
  unfold declare_package, import_call;
  cbn [collect flat_map app mark]; unfold is_schema_option;
  rewrite ?eqb_if; eval_eqb; cbn [orb]; cbv iota;
  rewrite ?flat_map_nil, ?if_same; cbn [app];
  rewrite ?app_nil_r, ?if_same.

Lemma declarations_quiet (g : FileGenerator E) :
  skeleton (header_calls g ++ package_calls C g) = [] /\
  raw_printed (header_calls g ++ package_calls C g) = [].
Proof. split; observe_shape; reflexivity. Qed.

Lemma definitions_quiet (g : FileGenerator E) :
  printed Template.defpackage (schema_calls g ++ entity_section g) = [] /\
  printed Template.register (schema_calls g ++ entity_section g) = [] /\
  raw_printed (schema_calls g ++ entity_section g) = [].
Proof. repeat split; observe_shape; reflexivity. Qed.

Lemma epilogue_quiet (g : FileGenerator E) :
  printed Template.defpackage
    (register_call g ::
     export_section (lisp_package_name_ g) (all_exports C g) (all_rpc_exports C g)) = [] /\
  skeleton
    (register_call g ::
     export_section (lisp_package_name_ g) (all_exports C g) (all_rpc_exports C g)) = [].
Proof. split; observe_shape; reflexivity. Qed.

(** *** Where things are printed *)

Lemma schema_calls_split (g : FileGenerator E) :
  schema_calls g
  = (Print Template.define_schema [("schema_name", schema_name_ g)] :: Indent :: Indent ::
     schema_option_calls g ++ [Outdent; Outdent])%list.
Proof.
  unfold schema_calls, schema_option_calls. cbn [app].
  do 4 f_equal. rewrite <- !app_assoc. reflexivity.
Qed.

Lemma skeleton_after_schema (g : FileGenerator E) :
  skeleton (entity_section g ++ register_call g ::
            export_section (lisp_package_name_ g) (all_exports C g) (all_rpc_exports C g))
  = repeat EntityGenerated
      (List.length (enums_ g) + List.length (messages_ g) +
       List.length (extensions (file_ g)) + List.length (services_ g)).
Proof.
  observe_shape. rewrite ?flat_map_const, !guarded_repeat, !repeat_app.
  rewrite <- ?app_assoc. reflexivity.
Qed.

(** The calls up to the last package declaration. *)
Lemma declarations_come_first (g : FileGenerator E) :
  exists declarations rest,
    trace C g = (declarations ++ rest)%list /\
    printed Template.in_package declarations = [] /\
    printed Template.defpackage declarations
    = map (fun p => [("package_name", p)]) (StringSet.elements (all_packages C g)).
Proof.
  exists (header_calls g ++ Print Template.declaim [] ::
          map declare_package (StringSet.elements (all_packages C g)))%list.
  eexists. split; [|split].
  - unfold trace, package_calls. cbn [app]. rewrite <- !app_assoc. cbn [app]. reflexivity.
  - observe. reflexivity.
  - observe. apply flat_map_singleton.
Qed.

Lemma printed_In t vars (l : list (Call E)) :
  In (Print t vars) l -> In vars (printed t l).
Proof.
  unfold printed, collect. intros Hin. apply in_flat_map.
  exists (Print t vars). split; [exact Hin|]. rewrite String.eqb_refl. left; reflexivity.
Qed.

(** The import clause, where it stands. *)
Lemma import_clause_split (g : FileGenerator E) :
  dependencies (file_ g) <> [] ->
  exists before after,
    trace C g
    = (before ++
       Print (if StdString.empty (package (file_ g)) then "" else Template.option_sep) [] ::
       Print Template.import_open [] ::
       separated "" Template.import_sep import_call (dependencies (file_ g)) ++
       Print ")" [] :: after)%list /\
    printed Template.import_sep before = [] /\ printed Template.import_sep after = [] /\
    printed Template.option_sep before = [] /\ printed Template.option_sep after = [].
Proof.
  intros Hdeps.
  assert (Hnon : non_empty (dependencies (file_ g)) = true)
    by (destruct (dependencies (file_ g)); [contradiction|reflexivity]).
  exists (header_calls g ++ package_calls C g ++
          [Print Template.define_schema [("schema_name", schema_name_ g)]; Indent; Indent;
           Print Template.syntax [("syntax", syntax_ g)]] ++
          (if StdString.empty (package (file_ g)) then []
           else [Print "" []; Print Template.package [("pck", package (file_ g))]]))%list.
  exists ([Print Template.schema_close []; Outdent; Outdent] ++ entity_section g ++
          register_call g ::
          export_section (lisp_package_name_ g) (all_exports C g) (all_rpc_exports C g))%list.
  split.
  - unfold trace, schema_calls. rewrite Hnon. rewrite <- !app_assoc. cbn [app]. reflexivity.
  - repeat split; observe; reflexivity.
Qed.

Lemma no_separators_without_import (g : FileGenerator E) :
  dependencies (file_ g) = [] ->
  printed Template.import_sep (trace C g) = [] /\ printed Template.option_sep (trace C g) = [].
Proof.
  intros Hdeps. rewrite printed_import_sep, printed_option_sep, Hdeps. split; reflexivity.
Qed.

Lemma printed_export_sep_before (g : FileGenerator E) :
  printed Template.export_sep (calls_before_exports C g) = [].
Proof. unfold calls_before_exports. observe. reflexivity. Qed.

End Observations.

(** ** The package set *)

Section PackageSet.
Context {E : Entities} (C : Collaborators E).

Lemma empty_true_iff (s : string) : StdString.empty s = true <-> s = "".
Proof. destruct s; simpl; split; congruence. Qed.

Lemma empty_false_iff (s : string) : StdString.empty s = false <-> s <> "".
Proof. destruct s; simpl; split; congruence. Qed.

Lemma non_empty_true_iff A (l : list A) : non_empty l = true <-> l <> [].
Proof. destruct l; simpl; split; congruence. Qed.

Lemma elements_In (x : string) (s : StringSet.t) :
  In x (StringSet.elements s) <-> StringSet.In x s.
Proof.
  rewrite <- StringSet.elements_spec1, InA_alt.
  split; [intros Hx; exists x; split; [reflexivity|exact Hx]|intros (y & -> & Hy); exact Hy].
Qed.

Lemma elements_sorted (s : StringSet.t) : Sorted String_as_OT.lt (StringSet.elements s).
Proof. exact (StringSet.elements_spec2 s). Qed.

Lemma elements_NoDup (s : StringSet.t) : NoDup (StringSet.elements s).
Proof.
  pose proof (StringSet.elements_spec2w s) as Hnodup.
  induction Hnodup as [|x l Hx _ IH]; constructor; [|exact IH].
  intros Hin; apply Hx, InA_alt. exists x; split; [reflexivity|exact Hin].
Qed.

Lemma eqlistA_eq A (l1 l2 : list A) : eqlistA eq l1 l2 -> l1 = l2.
Proof. induction 1; [reflexivity|]; subst; reflexivity. Qed.

(** A strictly sorted list is determined by its members. *)
Lemma sorted_unique (l1 l2 : list string) :
  Sorted String_as_OT.lt l1 -> Sorted String_as_OT.lt l2 ->
  (forall x, In x l1 <-> In x l2) -> l1 = l2.
Proof.
  intros H1 H2 Hmem. apply eqlistA_eq.
  { apply SortA_equivlistA_eqlistA with (ltA := String_as_OT.lt); try assumption;
      try typeclasses eauto.
    intros x; rewrite !InA_alt.
    split; intros (y & -> & Hy); exists y; (split; [reflexivity|]); now apply Hmem. }
Qed.

Lemma AddPackages_In (m : MessageGenerator E) (set : StringSet.t) (x : string) :
  StringSet.In x (MessageGenerator_AddPackages C m set)
  <-> StringSet.In x set \/ In x (message_packages C m).
Proof.
  unfold MessageGenerator_AddPackages.
  revert set; induction (message_packages C m) as [|p l IH]; intros set; simpl.
  - tauto.
  - rewrite IH, StringSet.add_spec. intuition (subst; auto).
Qed.

Lemma add_message_packages_In (ms : list (MessageGenerator E)) (set : StringSet.t) (x : string) :
  StringSet.In x (add_message_packages C ms set)
  <-> StringSet.In x set \/ exists m, In m ms /\ In x (message_packages C m).
Proof.
  unfold add_message_packages.
  revert set; induction ms as [|m ms IH]; intros set; simpl.
  - split; [auto|intros [H|(m & [] & _)]; exact H].
  - rewrite IH, AddPackages_In. split.
    + intros [[H|H]|(m' & Hm' & H)]; eauto.
    + intros [H|(m' & [<-|Hm'] & H)]; eauto.
Qed.

Lemma own_packages_In (g : FileGenerator E) (x : string) :
  StringSet.In x (own_packages g)
  <-> (lisp_package_name_ g <> "" /\ x = lisp_package_name_ g) \/
      (lisp_package_name_ g <> "" /\ services (file_ g) <> [] /\ x = rpc_package_name g).
Proof.
  unfold own_packages.
  destruct (StdString.empty (lisp_package_name_ g)) eqn:Hlisp.
  - apply empty_true_iff in Hlisp. rewrite StringSetFacts.empty_iff. tauto.
  - apply empty_false_iff in Hlisp.
    destruct (non_empty (services (file_ g))) eqn:Hsvc.
    + apply non_empty_true_iff in Hsvc.
      rewrite !StringSet.add_spec, StringSetFacts.empty_iff. tauto.
    + assert (services (file_ g) = []) as -> by (destruct (services (file_ g)); [reflexivity|discriminate]).
      rewrite !StringSet.add_spec, StringSetFacts.empty_iff. tauto.
Qed.

End PackageSet.

(** * Properties of the generated source *)

Section Properties.
Context {E : Entities} (C : Collaborators E).

Lemma generation (file : FileDescriptor E) (g : FileGenerator E) :
  FileGenerator_new C file = Done g ->
  built_from C file g /\
  GenerateSource C g
  = Done (mkLocals (all_packages C g) (all_exports C g) (all_rpc_exports C g), trace C g).
Proof.
  intros Hg. apply FileGenerator_new_Done in Hg as (Hbuilt & _).
  split; [exact Hbuilt|now apply GenerateSource_run with (file := file)].
Qed.

Lemma flat_map_map A B D (f : A -> B) (h : B -> list D) (l : list A) :
  flat_map h (map f l) = flat_map (fun x => h (f x)) l.
Proof. induction l as [|x l IH]; simpl; [reflexivity|now rewrite IH]. Qed.

Lemma values_of_package_name (l : list string) :
  values_of "package_name" (map (fun p => [("package_name", p)]) l) = l.
Proof.
  induction l as [|p l IH]; [reflexivity|].
  change (p :: values_of "package_name" (map (fun p => [("package_name", p)]) l) = p :: l).
  now rewrite IH.
Qed.

Lemma declared_packages_trace (g : FileGenerator E) :
  declared_packages (trace C g) = StringSet.elements (all_packages C g).
Proof. unfold declared_packages. now rewrite printed_defpackage, values_of_package_name. Qed.

Lemma entered_packages_trace (g : FileGenerator E) :
  entered_packages (trace C g)
  = if StdString.empty (lisp_package_name_ g) then []
    else lisp_package_name_ g ::
         (if non_empty (all_rpc_exports C g) then [rpc_package_name g] else []).
Proof.
  unfold entered_packages. rewrite printed_in_package.
  destruct (StdString.empty (lisp_package_name_ g)); [reflexivity|].
  destruct (non_empty (all_rpc_exports C g)); reflexivity.
Qed.

Lemma declared_namespace_iff (file : FileDescriptor E) (g : FileGenerator E) (x : string) :
  FileGenerator_new C file = Done g ->
  In x (declared_packages (trace C g)) <-> declared_namespace C file x.
Proof.
  intros Hg. destruct (@generation _ _ Hg) as ((Hfile & Hlisp & _ & Hmsgs & _) & _).
  rewrite declared_packages_trace, elements_In.
  unfold all_packages. rewrite add_message_packages_In, own_packages_In.
  unfold declared_namespace, field_namespace, rpc_package_name.
  rewrite Hlisp, Hfile, Hmsgs.
  split.
  - intros [[H|H]|(m & Hm & Hx)]; [tauto|tauto|].
    apply in_map_iff in Hm as (m0 & <- & Hm0). right; right; eauto.
  - intros [H|[H|(m & Hm & Hx)]]; [tauto|tauto|].
    right. exists (MessageGenerator_new C m); split; [now apply in_map|exact Hx].
Qed.

(** C1: the entity generators are handed the printer in the order enums,
    messages, extensions, services, each group in the order of the
    descriptor; the export list is the schema name followed by the exports
    of the enums, messages and services in that order, and the RPC export
    list is made of the RPC exports of the services in order. *)
Theorem entities_emitted_in_descriptor_order (file : FileDescriptor E) (g : FileGenerator E) :
  FileGenerator_new C file = Done g ->
  exists locals calls,
    GenerateSource C g = Done (locals, calls) /\
    entity_calls calls
    = (map (fun e => EnumGenerator_Generate (EnumGenerator_new C e)) (enum_types file) ++
       map (fun m => MessageGenerator_Generate (MessageGenerator_new C m)) (message_types file) ++
       map (fun f => GenerateExtension f file) (extensions file) ++
       map (fun s => ServiceGenerator_Generate (ServiceGenerator_new C s)) (services file))%list /\
    exports locals
    = (schema_name_ g ::
       flat_map (fun e => enum_exports C (EnumGenerator_new C e)) (enum_types file) ++
       flat_map (fun m => message_exports C (MessageGenerator_new C m)) (message_types file) ++
       flat_map (fun s => service_exports C (ServiceGenerator_new C s)) (services file))%list /\
    rpc_exports locals
    = flat_map (fun s => service_rpc_exports C (ServiceGenerator_new C s)) (services file).
Proof.
  intros Hg. destruct (@generation _ _ Hg) as ((Hfile & _ & Henums & Hmsgs & Hsvcs) & Hrun).
  eexists; eexists; split; [exact Hrun|]. cbn [exports rpc_exports].
  rewrite entity_calls_trace. unfold all_exports, all_rpc_exports.
  rewrite Hfile, Henums, Hmsgs, Hsvcs, !map_map, !flat_map_map.
  repeat split.
Qed.

(** C3, as amended: the packages declared are the file's own lisp package
    when it is non-empty, the RPC package when moreover the file has a
    service, and the packages of the messages' field types; they are
    declared once each, in increasing lexicographic order, so that any file
    with the same namespaces gets the same declarations whatever the order
    in which they were inserted. *)
Theorem declared_packages_sorted_union (file : FileDescriptor E) (g : FileGenerator E) :
  FileGenerator_new C file = Done g ->
  exists locals calls,
    GenerateSource C g = Done (locals, calls) /\
    (forall x, In x (declared_packages calls) <-> declared_namespace C file x) /\
    NoDup (declared_packages calls) /\
    Sorted String_as_OT.lt (declared_packages calls) /\
    (forall file' g' locals' calls',
        FileGenerator_new C file' = Done g' ->
        GenerateSource C g' = Done (locals', calls') ->
        (forall x, declared_namespace C file' x <-> declared_namespace C file x) ->
        declared_packages calls' = declared_packages calls).
Proof.
  intros Hg. destruct (@generation _ _ Hg) as (_ & Hrun).
  eexists; eexists; split; [exact Hrun|].
  split; [intros x; now apply declared_namespace_iff|].
  rewrite declared_packages_trace.
  split; [apply elements_NoDup|]. split; [apply elements_sorted|].
  intros file' g' locals' calls' Hg' Hrun' Hsame.
  destruct (@generation _ _ Hg') as (_ & Hrun''). rewrite Hrun'' in Hrun'.
  injection Hrun' as _ <-.
  rewrite <- declared_packages_trace. apply sorted_unique.
  - rewrite declared_packages_trace; apply elements_sorted.
  - rewrite declared_packages_trace; apply elements_sorted.
  - intros x. now rewrite (@declared_namespace_iff _ _ x Hg'), (@declared_namespace_iff _ _ x Hg), Hsame.
Qed.


(** C6: the schema metadata block always carries the syntax tag; it has a
    [:package] clause exactly when the declared package is non-empty, and an
    [:import] clause exactly when the file has a dependency, the names of the
    dependencies being listed in the order of the descriptor. *)
Theorem schema_metadata_block (file : FileDescriptor E) (g : FileGenerator E) :
  FileGenerator_new C file = Done g ->
  exists locals calls,
    GenerateSource C g = Done (locals, calls) /\
    (exists pre post, calls = (pre ++ schema_calls g ++ post)%list) /\
    file_ g = file /\
    syntax file <> SYNTAX_UNKNOWN /\
    printed Template.syntax calls = [[("syntax", syntax_tag (syntax file))]] /\
    printed Template.package calls
    = (if StdString.empty (package file) then [] else [[("pck", package file)]]) /\
    printed Template.import_open calls
    = (if non_empty (dependencies file) then [[]] else []) /\
    printed Template.import calls
    = map (fun d => [("import", name d)]) (dependencies file).
Proof.
  intros Hg. destruct (@generation _ _ Hg) as ((Hfile & _) & Hrun).
  apply FileGenerator_new_Done in Hg as (_ & Hknown & Hsyntax & _).
  eexists; eexists; split; [exact Hrun|].
  split.
  { exists (header_calls g ++ package_calls C g)%list.
    eexists. unfold trace. rewrite <- !app_assoc. reflexivity. }
  rewrite printed_syntax, printed_package, printed_import_open, printed_import, Hsyntax, Hfile.
  repeat split. exact Hknown.
Qed.

Lemma rpc_package_name_fresh (s : string) : s ++ "-RPC" <> s.
Proof.
  intros Heq. apply (f_equal String.length) in Heq.
  rewrite length_append in Heq. simpl in Heq. lia.
Qed.

(** C7, as amended: the RPC package is declared exactly when the lisp
    package name is non-empty and the file has a service, or when a field
    type of one of the messages lives in a package of that name (without a
    service, the packages declared are the file's own and those of the
    messages' field types, and the RPC package is never switched to); when
    the lisp package name is non-empty, the type symbols are exported in the
    lisp package and the RPC symbols, if any, in a second export statement
    after the switch to the RPC package. *)
Theorem rpc_exports_in_rpc_package (file : FileDescriptor E) (g : FileGenerator E) :
  FileGenerator_new C file = Done g ->
  exists locals calls,
    GenerateSource C g = Done (locals, calls) /\
    declared_packages calls = StringSet.elements (packages locals) /\
    (In (rpc_package_name g) (declared_packages calls)
     <-> (lisp_package_name_ g <> "" /\ services file <> []) \/
         field_namespace C file (rpc_package_name g)) /\
    (services file = [] ->
     (forall x, In x (declared_packages calls)
                <-> (lisp_package_name_ g <> "" /\ x = lisp_package_name_ g) \/
                    field_namespace C file x) /\
     rpc_exports locals = [] /\
     ~ In (rpc_package_name g) (entered_packages calls)) /\
    (services file <> [] -> lisp_package_name_ g <> "" ->
     In (rpc_package_name g) (declared_packages calls)) /\
    (lisp_package_name_ g <> "" ->
     export_statements calls
     = (Some (lisp_package_name_ g), exports locals) ::
       (if non_empty (rpc_exports locals)
        then [(Some (rpc_package_name g), rpc_exports locals)] else []) /\
     (rpc_exports locals <> [] -> exports_rpc_symbols g locals calls)).
Proof.
  intros Hg. destruct (@generation _ _ Hg) as ((Hfile & Hlisp & _ & _ & Hsvcs) & Hrun).
  eexists; eexists; split; [exact Hrun|]. cbn [packages exports rpc_exports].
  split; [apply declared_packages_trace|].
  split; [|split; [|split]].
  - rewrite (@declared_namespace_iff _ _ (rpc_package_name g) Hg).
    unfold declared_namespace. rewrite <- Hlisp. unfold rpc_package_name.
    pose proof (@rpc_package_name_fresh (lisp_package_name_ g)) as Hfresh.
    tauto.
  - intros Hnone. rewrite Hnone in Hsvcs.
    split; [|split].
    + intros x. rewrite (@declared_namespace_iff _ _ x Hg).
      unfold declared_namespace. rewrite <- Hlisp, Hnone. tauto.
    + unfold all_rpc_exports. now rewrite Hsvcs.
    + rewrite entered_packages_trace. unfold all_rpc_exports. rewrite Hsvcs. cbn.
      destruct (StdString.empty (lisp_package_name_ g)); [tauto|].
      intros [Heq|[]]. symmetry in Heq. exact (rpc_package_name_fresh Heq).
  - intros Hsome Hnonempty.
    rewrite declared_packages_trace, elements_In.
    unfold all_packages. rewrite add_message_packages_In, own_packages_In, Hfile.
    left; right; auto.
  - intros Hnonempty. apply empty_false_iff in Hnonempty.
    rewrite export_statements_trace, Hnonempty.
    split; [reflexivity|]. intros Hrpc.
    exists (calls_before_exports C g).
    rewrite trace_split, export_section_nonempty by now apply empty_false_iff.
    apply non_empty_true_iff in Hrpc. now rewrite Hrpc.
Qed.

(** C9: the export list starts with the schema name, so it is never empty;
    when the lisp package name is non-empty the first export statement is in
    that package and its list starts with the schema name, whatever the file
    contains. *)
Theorem type_exports_start_with_schema_name (file : FileDescriptor E) (g : FileGenerator E) :
  FileGenerator_new C file = Done g ->
  exists locals calls,
    GenerateSource C g = Done (locals, calls) /\
    (exists rest, exports locals = schema_name_ g :: rest) /\
    exports locals <> [] /\
    (lisp_package_name_ g <> "" ->
     (exists rest more,
         export_statements calls = (Some (lisp_package_name_ g), schema_name_ g :: rest) :: more) /\
     (exists pre post,
         calls = (pre ++ Print Template.export [] :: Print "(" [] ::
                  PrintRaw (schema_name_ g) :: post)%list /\
         printed Template.export pre = [])).
Proof.
  intros Hg. destruct (@generation _ _ Hg) as (_ & Hrun).
  eexists; eexists; split; [exact Hrun|]. cbn [exports].
  split; [eexists; reflexivity|]. split; [discriminate|].
  intros Hnonempty. apply empty_false_iff in Hnonempty. split.
  - rewrite export_statements_trace, Hnonempty. eexists; eexists; reflexivity.
  - exists (calls_before_exports C g). eexists. split; [|apply printed_export_before].
    rewrite trace_split, export_section_nonempty by now apply empty_false_iff.
    unfold all_exports at 1. cbn [export_statement separated app]. reflexivity.
Qed.

(** C10, as amended: the registration of the schema under the file name is
    always emitted; when the lisp package name is empty the packages
    declared are exactly those of the messages' field types (the file's own
    or RPC namespace is declared only if a field type lives in a package of
    that name), no package is switched to, and no export statement is made:
    nothing is written raw, whatever RPC exports the services have
    accumulated, and the registration is the last call. *)
Theorem empty_lisp_package_exports_nothing (file : FileDescriptor E) (g : FileGenerator E) :
  FileGenerator_new C file = Done g ->
  exists locals calls,
    GenerateSource C g = Done (locals, calls) /\
    In (Print Template.register
          [("file_name", name file); ("schema_name", schema_name_ g)]) calls /\
    rpc_exports locals
    = flat_map (fun s => service_rpc_exports C (ServiceGenerator_new C s)) (services file) /\
    (lisp_package_name_ g = "" ->
     (forall x, In x (declared_packages calls) <-> field_namespace C file x) /\
     (In (lisp_package_name_ g) (declared_packages calls)
      <-> field_namespace C file EmptyString) /\
     (In (rpc_package_name g) (declared_packages calls)
      <-> field_namespace C file "-RPC") /\
     entered_packages calls = [] /\
     export_statements calls = [] /\
     printed Template.export calls = [] /\
     raw_printed calls = [] /\
     exists pre,
       calls = (pre ++ [Print Template.register
                          [("file_name", name file); ("schema_name", schema_name_ g)]])%list).
Proof.
  intros Hg. destruct (@generation _ _ Hg) as ((Hfile & Hlisp & _ & _ & Hsvcs) & Hrun).
  eexists; eexists; split; [exact Hrun|]. cbn [rpc_exports].
  split; [|split].
  - rewrite trace_split. apply in_or_app; left.
    unfold calls_before_exports. rewrite !app_assoc. apply in_or_app; right.
    unfold register_call. rewrite Hfile. left; reflexivity.
  - unfold all_rpc_exports. now rewrite Hsvcs, flat_map_map.
  - intros Hempty.
    rewrite entered_packages_trace, export_statements_trace, printed_export, raw_printed_trace.
    rewrite Hempty. cbn [StdString.empty].
    assert (Hfields : forall x, In x (declared_packages (trace C g))
                                <-> field_namespace C file x).
    { intros x. rewrite (@declared_namespace_iff _ _ x Hg).
      unfold declared_namespace. rewrite <- Hlisp, Hempty. tauto. }
    split; [exact Hfields|].
    split; [apply Hfields|].
    split; [unfold rpc_package_name; rewrite Hempty; apply Hfields|].
    do 4 (split; [reflexivity|]).
    exists (header_calls g ++ package_calls C g ++ schema_calls g ++ entity_section g)%list.
    rewrite trace_split. unfold calls_before_exports, export_section, register_call.
    rewrite Hempty, Hfile. cbn [StdString.empty]. rewrite app_nil_r, <- !app_assoc. reflexivity.
Qed.

End Properties.

(** * Determinism *)

Section Determinism.
Context {E : Entities} (C : Collaborators E) {P : Type} `{Printer P} (X : Emitters E P).

Lemma run_app (a b : list (Call E)) (p : P) : run X (a ++ b) p = run X b (run X a p).
Proof. apply fold_left_app. Qed.

Lemma run_map_ext A (c1 c2 : A -> Call E) (l : list A) (p : P) :
  (forall x p, perform X (c1 x) p = perform X (c2 x) p) ->
  run X (map c1 l) p = run X (map c2 l) p.
Proof.
  intros Hext; revert p; induction l as [|x l IH]; intros p; [reflexivity|].
  cbn [map]. change (run X (?c :: ?l) p) with (run X l (perform X c p)).
  now rewrite Hext, IH.
Qed.

Lemma separated_map A B (first rest : string) (h : A -> B) (c : B -> Call E) (l : list A) :
  separated first rest (fun x => c (h x)) l = separated first rest c (map h l).
Proof.
  revert first; induction l as [|x l IH]; intros first; [reflexivity|].
  cbn [separated map]. now rewrite IH.
Qed.

Lemma non_empty_map A B (h : A -> B) (l : list A) : non_empty (map h l) = non_empty l.
Proof. destruct l; reflexivity. Qed.

Lemma same_reading_refl (file : FileDescriptor E) : same_reading C X file file.
Proof. repeat split. Qed.

(** The generator object is determined by the descriptor. *)
Lemma FileGenerator_new_inv (file : FileDescriptor E) (g : FileGenerator E) :
  FileGenerator_new C file = Done g ->
  exists schema_name,
    derive_schema_name C (name file) = Done schema_name /\
    g = mkFileGenerator file (FileLispPackage C file) schema_name (syntax_tag (syntax file))
          (map (EnumGenerator_new C) (enum_types file))
          (map (MessageGenerator_new C) (message_types file))
          (map (ServiceGenerator_new C) (services file)).
Proof.
  intros Hg.
  apply FileGenerator_new_Done in Hg
    as ((Hfile & Hlisp & Henums & Hmsgs & Hsvcs) & _ & Hsyntax & Hname).
  exists (schema_name_ g); split; [exact Hname|].
  destruct g; cbn in *; congruence.
Qed.

Lemma run_same_reading (file1 file2 : FileDescriptor E) (g1 g2 : FileGenerator E) (p : P) :
  same_reading C X file1 file2 ->
  FileGenerator_new C file1 = Done g1 ->
  FileGenerator_new C file2 = Done g2 ->
  run X (trace C g1) p = run X (trace C g2) p.
Proof.
  intros (Hname & Hpackage & Hsyntax & Hdeps & Henums & Hmsgs & Hexts & Hsvcs & Hlisp & Hext)
         Hg1 Hg2.
  apply FileGenerator_new_inv in Hg1 as (schema1 & Hschema1 & ->).
  apply FileGenerator_new_inv in Hg2 as (schema2 & Hschema2 & ->).
  rewrite Hname, Hschema2 in Hschema1. injection Hschema1 as <-.
  assert (Hschema : schema_calls (mkFileGenerator file1 (FileLispPackage C file1) schema2
                      (syntax_tag (syntax file1)) (map (EnumGenerator_new C) (enum_types file1))
                      (map (MessageGenerator_new C) (message_types file1))
                      (map (ServiceGenerator_new C) (services file1)))
                    = schema_calls (mkFileGenerator file2 (FileLispPackage C file2) schema2
                      (syntax_tag (syntax file2)) (map (EnumGenerator_new C) (enum_types file2))
                      (map (MessageGenerator_new C) (message_types file2))
                      (map (ServiceGenerator_new C) (services file2)))).
  { unfold schema_calls, import_call; cbn [file_ schema_name_ syntax_].
    rewrite (separated_map _ _ (@name E) (fun n => Print Template.import [("import", n)])).
    rewrite (separated_map _ _ (@name E) (fun n => Print Template.import [("import", n)])).
    rewrite <- (non_empty_map (@name E) (dependencies file1)).
    rewrite <- (non_empty_map (@name E) (dependencies file2)).
    now rewrite Hpackage, Hsyntax, Hdeps. }
  unfold trace. rewrite Hschema.
  unfold header_calls, package_calls, entity_section, register_call, all_packages,
    own_packages, all_exports, all_rpc_exports, rpc_package_name.
  cbn [file_ lisp_package_name_ schema_name_ syntax_ enums_ messages_ services_].
  rewrite Hname, Henums, Hmsgs, Hexts, Hsvcs, Hlisp.
  assert (Hentity : forall q,
             run X (group Template.extensions (fun f => GenerateExtension f file1)
                      (extensions file2)) q
             = run X (group Template.extensions (fun f => GenerateExtension f file2)
                        (extensions file2)) q).
  { intros q. unfold group. destruct (non_empty (extensions file2)); [|reflexivity].
    change (run X (?c :: ?l) ?q) with (run X l (perform X c q)).
    apply run_map_ext. intros f q'. apply Hext. }
  rewrite !run_app, Hentity. reflexivity.
Qed.

(** [GenerateSource] reads a dependency only for its name: on descriptors
    that read the same through the accessors it uses, from printers in the
    same state, it completes and leaves the printers in the same state. *)
Lemma print_source_same_reading
        (file1 file2 : FileDescriptor E) (g1 g2 : FileGenerator E) (p : P) :
  same_reading C X file1 file2 ->
  FileGenerator_new C file1 = Done g1 ->
  FileGenerator_new C file2 = Done g2 ->
  exists out, print_source C X g1 p = Done out /\ print_source C X g2 p = Done out.
Proof.
  intros Hsame Hg1 Hg2.
  exists (run X (trace C g2) p). unfold print_source.
  destruct (@generation _ C _ _ Hg1) as (_ & ->), (@generation _ C _ _ Hg2) as (_ & ->).
  split; [f_equal; now apply run_same_reading with (file1 := file1) (file2 := file2)|reflexivity].
Qed.

End Determinism.

(** * The generator at work on concrete files *)

Section Examples.
Import Example.

Example addressbook_schema_name : schema_name_ (generator addressbook) = "addressbook".
Proof. reflexivity. Qed.

Example empty_file_schema_name : schema_name_ (generator empty_file) = "empty.v2".
Proof. reflexivity. Qed.

Example addressbook_packages :
  declared_packages (calls (GenerateSource collaborators (generator addressbook)))
  = ["ALPHA"; "GOOGLE.PROTOBUF"; "TUTORIAL"; "TUTORIAL-RPC"].
Proof. vm_compute. reflexivity. Qed.

Example unknown_syntax_aborts :
  FileGenerator_new collaborators unknown_syntax = Fatal "Unknown syntax for file: old.proto".
Proof. reflexivity. Qed.

Lemma entities_emitted_in_descriptor_order_witness :
  FileGenerator_new collaborators addressbook = Done (generator addressbook) /\
  exists locals calls,
    GenerateSource collaborators (generator addressbook) = Done (locals, calls) /\
    entity_calls calls
    = [@EnumGenerator_Generate entities phone_type;
       @MessageGenerator_Generate entities person;
       @MessageGenerator_Generate entities address_book;
       @GenerateExtension entities "nickname" addressbook;
       @ServiceGenerator_Generate entities directory] /\
    exports locals
    = ["addressbook"; "PHONE-TYPE"; "+PHONE-TYPE.MOBILE+"; "+PHONE-TYPE.HOME+";
       "PERSON"; "PERSON.NAME"; "PERSON.ID"; "ADDRESS-BOOK"; "ADDRESS-BOOK.PEOPLE";
       "DIRECTORY"] /\
    rpc_exports locals = ["CALL-FIND"; "FIND"].
Proof.
  split; [reflexivity|].
  exact (@entities_emitted_in_descriptor_order entities collaborators addressbook
           (generator addressbook) eq_refl).
Defined.

(** C3, as stated, fails: with an empty lisp package name and a service, the
    RPC namespace ["-RPC"] is among the namespaces listed, and it is not
    declared. *)
Lemma rpc_namespace_needs_lisp_package :
  ~ (forall x,
        In x (declared_packages (calls (GenerateSource collaborators (generator unpackaged))))
        <-> specified_namespace collaborators unpackaged x).
Proof.
  intros Hclaim. destruct (Hclaim "-RPC") as [_ Hin].
  assert (Hnone : declared_packages
                    (calls (GenerateSource collaborators (generator unpackaged))) = [])
    by (vm_compute; reflexivity).
  rewrite Hnone in Hin. apply Hin.
  right; left. split; [discriminate|reflexivity].
Qed.

Lemma declared_packages_sorted_union_witness :
  FileGenerator_new collaborators addressbook = Done (generator addressbook) /\
  exists locals calls,
    GenerateSource collaborators (generator addressbook) = Done (locals, calls) /\
    (forall x, In x (declared_packages calls) <-> declared_namespace collaborators addressbook x) /\
    NoDup (declared_packages calls) /\
    Sorted String_as_OT.lt (declared_packages calls) /\
    (forall file' g' locals' calls',
        FileGenerator_new collaborators file' = Done g' ->
        GenerateSource collaborators g' = Done (locals', calls') ->
        (forall x, declared_namespace collaborators file' x
                   <-> declared_namespace collaborators addressbook x) ->
        declared_packages calls' = declared_packages calls).
Proof.
  split; [reflexivity|].
  exact (@declared_packages_sorted_union entities collaborators addressbook
           (generator addressbook) eq_refl).
Defined.



Lemma schema_name_is_normalized_base_name_witness :
  FileGenerator_new collaborators empty_file = Done (generator empty_file) /\
  exists base stem,
    base_name_of (name empty_file) base /\
    without_extension base stem /\
    schema_name_ (generator empty_file) = to_lower stem /\
    (forall base' stem',
        base_name_of (name empty_file) base' -> without_extension base' stem' -> stem' = stem).
Proof.
  split; [reflexivity|].
  exact (@schema_name_is_normalized_base_name entities collaborators empty_file
           (generator empty_file) eq_refl).
Defined.

Lemma schema_metadata_block_witness :
  FileGenerator_new collaborators addressbook = Done (generator addressbook) /\
  exists locals calls,
    GenerateSource collaborators (generator addressbook) = Done (locals, calls) /\
    (exists pre post, calls = (pre ++ schema_calls (generator addressbook) ++ post)%list) /\
    file_ (generator addressbook) = addressbook /\
    syntax addressbook <> SYNTAX_UNKNOWN /\
    printed Template.syntax calls = [[("syntax", ":proto3")]] /\
    printed Template.package calls = [[("pck", "tutorial")]] /\
    printed Template.import_open calls = [[]] /\
    printed Template.import calls = [[("import", "google/protobuf/timestamp.proto")]].
Proof.
  split; [reflexivity|].
  exact (@schema_metadata_block entities collaborators addressbook
           (generator addressbook) eq_refl).
Defined.

(** C7, as stated, fails in both halves. With an empty lisp package name
    the RPC exports accumulated from the services are not exported at all;
    and a file without a service declares its RPC package when a message has
    a field whose type lives in a package of that name. *)
Lemma rpc_package_without_service_or_exports :
  (exists locals calls,
      GenerateSource collaborators (generator unpackaged) = Done (locals, calls) /\
      rpc_exports locals = ["CALL-FIND"; "FIND"] /\
      ~ exports_rpc_symbols (generator unpackaged) locals calls) /\
  (FileGenerator_new collaborators Scenario.no_service = Done (generator Scenario.no_service) /\
   services Scenario.no_service = [] /\
   rpc_package_name (generator Scenario.no_service) = "TUTORIAL-RPC" /\
   exists locals calls,
     GenerateSource collaborators (generator Scenario.no_service) = Done (locals, calls) /\
     declared_packages calls = ["TUTORIAL"; "TUTORIAL-RPC"] /\
     In (rpc_package_name (generator Scenario.no_service)) (declared_packages calls)).
Proof.
  split.
  - eexists; eexists; split; [vm_compute; reflexivity|].
    split; [reflexivity|].
    intros (pre & Heq). apply (f_equal (@raw_printed entities)) in Heq.
    unfold raw_printed in Heq. rewrite !collect_app in Heq.
    symmetry in Heq. apply app_eq_nil in Heq as (_ & Heq).
    apply app_eq_nil in Heq as (Heq & _). vm_compute in Heq. discriminate.
  - do 3 (split; [reflexivity|]).
    eexists; eexists; split; [vm_compute; reflexivity|].
    split; [vm_compute; reflexivity|].
    right; left; reflexivity.
Qed.

Lemma rpc_exports_in_rpc_package_witness :
  FileGenerator_new collaborators addressbook = Done (generator addressbook) /\
  exists locals calls,
    GenerateSource collaborators (generator addressbook) = Done (locals, calls) /\
    declared_packages calls = StringSet.elements (packages locals) /\
    (In "TUTORIAL-RPC" (declared_packages calls)
     <-> ("TUTORIAL" <> "" /\ services addressbook <> []) \/
         field_namespace collaborators addressbook "TUTORIAL-RPC") /\
    (services addressbook = [] ->
     (forall x, In x (declared_packages calls)
                <-> ("TUTORIAL" <> "" /\ x = "TUTORIAL") \/
                    field_namespace collaborators addressbook x) /\
     rpc_exports locals = [] /\
     ~ In "TUTORIAL-RPC" (entered_packages calls)) /\
    (services addressbook <> [] -> "TUTORIAL" <> "" ->
     In "TUTORIAL-RPC" (declared_packages calls)) /\
    ("TUTORIAL" <> "" ->
     export_statements calls
     = (Some "TUTORIAL", exports locals) ::
       (if non_empty (rpc_exports locals)
        then [(Some "TUTORIAL-RPC", rpc_exports locals)] else []) /\
     (rpc_exports locals <> [] -> exports_rpc_symbols (generator addressbook) locals calls)).
Proof.
  split; [reflexivity|].
  exact (@rpc_exports_in_rpc_package entities collaborators addressbook
           (generator addressbook) eq_refl).
Defined.

Example addressbook_same_reading :
  (same_reading collaborators emitters addressbook addressbook' /\
   addressbook <> addressbook' /\
   FileGenerator_new collaborators addressbook = Done (generator addressbook) /\
   FileGenerator_new collaborators addressbook' = Done (generator addressbook')) /\
  exists out,
    print_source collaborators emitters (generator addressbook) TextPrinter.fresh = Done out /\
    print_source collaborators emitters (generator addressbook') TextPrinter.fresh = Done out.
Proof.
  assert (Hsame : same_reading collaborators emitters addressbook addressbook')
    by (repeat split).
  split; [split; [exact Hsame|split; [discriminate|split; reflexivity]]|].
  exact (@print_source_same_reading entities collaborators TextPrinter.t _ emitters
           addressbook addressbook' (generator addressbook) (generator addressbook')
           TextPrinter.fresh Hsame eq_refl eq_refl).
Qed.

Lemma type_exports_start_with_schema_name_witness :
  FileGenerator_new collaborators empty_file = Done (generator empty_file) /\
  exists locals calls,
    GenerateSource collaborators (generator empty_file) = Done (locals, calls) /\
    (exists rest, exports locals = "empty.v2" :: rest) /\
    exports locals <> [] /\
    ("EMPTY" <> "" ->
     (exists rest more,
         export_statements calls = (Some "EMPTY", "empty.v2" :: rest) :: more) /\
     (exists pre post,
         calls = (pre ++ Print Template.export [] :: Print "(" [] ::
                  PrintRaw "empty.v2" :: post)%list /\
         printed Template.export pre = [])).
Proof.
  split; [reflexivity|].
  exact (@type_exports_start_with_schema_name entities collaborators empty_file
           (generator empty_file) eq_refl).
Defined.

(** C10, as stated, fails: with an empty lisp package name, a message with
    fields whose types live in the package with the empty name and in the
    package ["-RPC"] has the file's own and RPC namespace declared. *)
Lemma own_namespace_declared_for_field_types :
  FileGenerator_new collaborators Scenario.unpackaged_message
  = Done (generator Scenario.unpackaged_message) /\
  lisp_package_name_ (generator Scenario.unpackaged_message) = EmptyString /\
  rpc_package_name (generator Scenario.unpackaged_message) = "-RPC" /\
  exists locals calls,
    GenerateSource collaborators (generator Scenario.unpackaged_message)
    = Done (locals, calls) /\
    declared_packages calls = [EmptyString; "-RPC"] /\
    In (lisp_package_name_ (generator Scenario.unpackaged_message)) (declared_packages calls) /\
    In (rpc_package_name (generator Scenario.unpackaged_message)) (declared_packages calls).
Proof.
  do 3 (split; [reflexivity|]).
  eexists; eexists; split; [vm_compute; reflexivity|].
  split; [vm_compute; reflexivity|].
  split; [left; reflexivity|right; left; reflexivity].
Qed.

Lemma empty_lisp_package_exports_nothing_witness :
  (FileGenerator_new collaborators unpackaged = Done (generator unpackaged) /\
   lisp_package_name_ (generator unpackaged) = "") /\
  exists locals calls,
    GenerateSource collaborators (generator unpackaged) = Done (locals, calls) /\
    In (Print Template.register
          [("file_name", "directory.proto"); ("schema_name", "directory")]) calls /\
    rpc_exports locals = ["CALL-FIND"; "FIND"] /\
    (forall x, In x (declared_packages calls) <-> field_namespace collaborators unpackaged x) /\
    (In EmptyString (declared_packages calls)
     <-> field_namespace collaborators unpackaged EmptyString) /\
    (In "-RPC" (declared_packages calls) <-> field_namespace collaborators unpackaged "-RPC") /\
    entered_packages calls = [] /\
    export_statements calls = [] /\
    printed Template.export calls = [] /\
    raw_printed calls = [] /\
    exists pre,
      calls = (pre ++ [Print Template.register
                         [("file_name", "directory.proto"); ("schema_name", "directory")]])%list.
Proof.
  split; [split; reflexivity|].
  destruct (@empty_lisp_package_exports_nothing entities collaborators unpackaged
              (generator unpackaged) eq_refl)
    as (locals & calls & Hrun & Hregister & Hrpc & Hempty).
  destruct (Hempty eq_refl)
    as (Hdeclared & Hown & Hrpcs & Hentered & Hstatements & Hexport & Hraw & Hlast).
  exists locals, calls. repeat (split; [assumption|]). assumption.
Defined.

End Examples.

(** * Further properties of the constructor and of [GenerateSource] *)

Section FurtherProperties.
Context {E : Entities} (C : Collaborators E).

Lemma flat_map_ext_nil_in A B (h : A -> list B) (l : list A) :
  (forall x, In x l -> h x = []) -> flat_map h l = [].
Proof.
  induction l as [|x l IH]; intros Hh; simpl; [reflexivity|].
  rewrite Hh by (left; reflexivity). apply IH. intros y Hy; apply Hh; right; exact Hy.
Qed.

(** X1: the constructor (lines 29-46) keeps the descriptor and its lisp
    package name, and builds one generator per enum, message and service of
    the descriptor, in the order of the descriptor. *)
Theorem constructor_builds_generators_in_order (file : FileDescriptor E) (g : FileGenerator E) :
  FileGenerator_new C file = Done g ->
  file_ g = file /\
  lisp_package_name_ g = FileLispPackage C file /\
  enums_ g = map (EnumGenerator_new C) (enum_types file) /\
  messages_ g = map (MessageGenerator_new C) (message_types file) /\
  services_ g = map (ServiceGenerator_new C) (services file).
Proof. intros Hg. now apply FileGenerator_new_Done in Hg as (Hbuilt & _). Qed.

(** X2: the schema name does not depend on the directory of the file
    (lines 60-64): a file and the same file name behind any directory prefix
    get the same schema name. *)
Theorem schema_name_ignores_directory
        (file1 file2 : FileDescriptor E) (g1 g2 : FileGenerator E) (dir : string) (c : ascii) :
  FileGenerator_new C file1 = Done g1 ->
  FileGenerator_new C file2 = Done g2 ->
  name file1 = dir ++ String c (name file2) ->
  is_separator c ->
  free_of is_separator (name file2) ->
  schema_name_ g1 = schema_name_ g2.
Proof.
  intros Hg1 Hg2 Hname Hc Hfree.
  apply FileGenerator_new_Done in Hg1 as (_ & _ & _ & Hname1).
  apply FileGenerator_new_Done in Hg2 as (_ & _ & _ & Hname2).
  destruct (derive_schema_name_spec C (name file1)) as (base1 & stem1 & Hbase1 & Hstem1 & Hrun1).
  destruct (derive_schema_name_spec C (name file2)) as (base2 & stem2 & Hbase2 & Hstem2 & Hrun2).
  assert (base1 = name file2) as ->
    by (apply (base_name_of_unique Hbase1); now apply base_after with (dir := dir) (c := c)).
  assert (base2 = name file2) as ->
    by (apply (base_name_of_unique Hbase2); now apply base_whole).
  rewrite (without_extension_unique Hstem1 Hstem2) in Hrun1. congruence.
Qed.

(** X3: the nesting of the output (lines 111-172): the calls made between
    the two [Indent] calls, which follow the opening of the schema form, and
    the two [Outdent] calls are exactly those of the options of the form: the
    [:syntax] line, the [:package] clause after an empty separator, the
    [:import] clause with its separators and closing parenthesis, and the
    closing of the form. The printer is indented nowhere else, and every
    entity generator is handed the printer after the two [Outdent] calls. *)
Theorem schema_options_are_the_only_indented_output
        (file : FileDescriptor E) (g : FileGenerator E) :
  FileGenerator_new C file = Done g ->
  exists locals calls before after,
    GenerateSource C g = Done (locals, calls) /\
    calls
    = (before ++
       Print Template.define_schema [("schema_name", schema_name_ g)] ::
       Indent :: Indent ::
       (Print Template.syntax [("syntax", syntax_tag (syntax file))] ::
        (if StdString.empty (package file) then []
         else [Print EmptyString []; Print Template.package [("pck", package file)]]) ++
        (if non_empty (dependencies file) then
           [Print (if StdString.empty (package file) then EmptyString
                   else Template.option_sep) [];
            Print Template.import_open []] ++
           separated EmptyString Template.import_sep import_call (dependencies file) ++
           [Print ")" []]
         else []) ++
        [Print Template.schema_close []]) ++
       Outdent :: Outdent :: after)%list /\
    skeleton before = [] /\
    skeleton after
    = repeat EntityGenerated
        (List.length (enum_types file) + List.length (message_types file) +
         List.length (extensions file) + List.length (services file)).
Proof.
  intros Hg. destruct (@generation _ C _ _ Hg) as ((Hfile & _ & Henums & Hmsgs & Hsvcs) & Hrun).
  apply FileGenerator_new_Done in Hg as (_ & _ & Hsyntax & _).
  eexists. exists (trace C g), (header_calls g ++ package_calls C g)%list,
    (entity_section g ++ register_call g ::
     export_section (lisp_package_name_ g) (all_exports C g) (all_rpc_exports C g))%list.
  split; [exact Hrun|]. split; [|split].
  - unfold trace. rewrite schema_calls_split.
    pose proof (eq_refl (schema_option_calls g)) as Hoptions.
    unfold schema_option_calls at 2 in Hoptions. rewrite Hfile, Hsyntax in Hoptions.
    rewrite <- Hoptions. generalize (schema_option_calls g). intros options.
    rewrite <- !app_assoc. cbn [app]. rewrite <- !app_assoc. reflexivity.
  - apply declarations_quiet.
  - rewrite skeleton_after_schema, Hfile, Henums, Hmsgs, Hsvcs, !length_map. reflexivity.
Qed.

Lemma declared_packages_app (a b : list (Call E)) :
  declared_packages (a ++ b) = (declared_packages a ++ declared_packages b)%list.
Proof.
  unfold declared_packages, printed, values_of. now rewrite collect_app, flat_map_app.
Qed.

(** A call that is not among the first calls of a sequence comes after
    them. *)
Lemma later_call A (c : A) (before after first rest : list A) :
  (before ++ c :: after = first ++ rest)%list -> ~ In c first ->
  exists between, before = (first ++ between)%list.
Proof.
  intros Heq Hnotin. apply app_eq_app in Heq as (l & [(Hbefore & _)|(Hfirst & Hrest)]).
  - exists l. exact Hbefore.
  - destruct l as [|x l].
    + exists []. rewrite app_nil_r in Hfirst. now rewrite Hfirst, app_nil_r.
    + injection Hrest as Hx _. exfalso. apply Hnotin. rewrite Hfirst, Hx.
      apply in_or_app. right; left; reflexivity.
Qed.

(** X4: [GenerateSource] switches with [(cl:in-package "...")] only to
    packages it has declared, and never to a package with an empty name
    (lines 84-109 and 196-199): every package switched to is among those
    declared, and at every such switch the declaration of the package is
    among the calls already made. *)
Theorem entered_packages_are_declared (file : FileDescriptor E) (g : FileGenerator E) :
  FileGenerator_new C file = Done g ->
  exists locals calls,
    GenerateSource C g = Done (locals, calls) /\
    Forall (fun p => p <> "" /\ In p (declared_packages calls)) (entered_packages calls) /\
    forall before vars after,
      calls = (before ++ Print Template.in_package vars :: after)%list ->
      exists p,
        vars = [("package_name", p)] /\ p <> "" /\
        In (declare_package p) before /\
        In p (declared_packages before).
Proof.
  intros Hg. destruct (@generation _ C _ _ Hg) as ((Hfile & Hlisp & _ & _ & Hsvcs) & Hrun).
  eexists; eexists; split; [exact Hrun|].
  assert (Hown : lisp_package_name_ g <> "" ->
                 In (lisp_package_name_ g) (StringSet.elements (all_packages C g))).
  { intros Hnonempty. rewrite <- declared_packages_trace.
    apply (@declared_namespace_iff _ C _ _ _ Hg). left. rewrite <- Hlisp. auto. }
  assert (Hrpc : lisp_package_name_ g <> "" -> non_empty (all_rpc_exports C g) = true ->
                 In (rpc_package_name g) (StringSet.elements (all_packages C g))).
  { intros Hnonempty Hsome. rewrite <- declared_packages_trace.
    apply (@declared_namespace_iff _ C _ _ _ Hg). right; left. rewrite <- Hlisp.
    repeat split; [exact Hnonempty|].
    intros Hnone. unfold all_rpc_exports in Hsome. rewrite Hsvcs, Hnone in Hsome. discriminate. }
  assert (Hfresh : lisp_package_name_ g <> "" -> rpc_package_name g <> "").
  { unfold rpc_package_name. now destruct (lisp_package_name_ g). }
  split.
  - rewrite entered_packages_trace, declared_packages_trace.
    destruct (StdString.empty (lisp_package_name_ g)) eqn:Hempty; [constructor|].
    apply empty_false_iff in Hempty.
    constructor; [auto|].
    destruct (non_empty (all_rpc_exports C g)) eqn:Hsome; constructor; [auto|constructor].
  - intros before vars after Hcalls.
    destruct (declarations_come_first C g) as (declarations & rest & Htrace & Hquiet & Hdeclared).
    assert (Hin : In vars (printed Template.in_package (trace C g))).
    { apply printed_In. rewrite Hcalls. apply in_or_app. right; left; reflexivity. }
    assert (Hlater : exists between, before = (declarations ++ between)%list).
    { apply later_call with (c := Print Template.in_package vars) (after := after) (rest := rest).
      - now rewrite <- Hcalls.
      - intros Hearly. apply printed_In in Hearly. rewrite Hquiet in Hearly. exact Hearly. }
    destruct Hlater as (between & ->).
    assert (Hready : forall p, In p (StringSet.elements (all_packages C g)) ->
                               In (declare_package (E := E) p) (declarations ++ between) /\
                               In p (declared_packages (declarations ++ between))).
    { intros p Hp. split.
      - apply in_or_app; left.
        assert (Hvars : In [("package_name", p)] (printed Template.defpackage declarations))
          by (rewrite Hdeclared; apply in_map_iff; exists p; split; [reflexivity|exact Hp]).
        unfold printed, collect in Hvars. apply in_flat_map in Hvars as (c & Hc & Hvars).
        destruct c as [text vars'| | | | | | |]; try contradiction.
        destruct (String.eqb text Template.defpackage) eqn:Htext; [|contradiction].
        apply String.eqb_eq in Htext. destruct Hvars as [Hvars|[]].
        subst text vars'. exact Hc.
      - rewrite declared_packages_app. apply in_or_app; left.
        unfold declared_packages. now rewrite Hdeclared, values_of_package_name. }
    rewrite printed_in_package in Hin.
    destruct (StdString.empty (lisp_package_name_ g)) eqn:Hempty; [contradiction|].
    apply empty_false_iff in Hempty.
    destruct Hin as [<-|Hin].
    { exists (lisp_package_name_ g).
      split; [reflexivity|]. split; [exact Hempty|]. apply Hready. auto. }
    destruct (non_empty (all_rpc_exports C g)) eqn:Hsome; [|contradiction].
    destruct Hin as [<-|[]].
    exists (rpc_package_name g).
    split; [reflexivity|]. split; [auto|]. apply Hready. auto.
Qed.

(** X5: the RPC package is declared on the service count (line 87) but
    switched to on the RPC exports (line 196): when the services of a file
    report no RPC symbol the RPC package is declared and never used, and the
    type export statement is the only one. *)
Theorem rpc_package_declared_but_unused (file : FileDescriptor E) (g : FileGenerator E) :
  FileGenerator_new C file = Done g ->
  lisp_package_name_ g <> "" ->
  services file <> [] ->
  (forall s, In s (services file) -> service_rpc_exports C (ServiceGenerator_new C s) = []) ->
  exists locals calls,
    GenerateSource C g = Done (locals, calls) /\
    In (rpc_package_name g) (declared_packages calls) /\
    entered_packages calls = [lisp_package_name_ g] /\
    export_statements calls = [(Some (lisp_package_name_ g), exports locals)].
Proof.
  intros Hg Hnonempty Hsome Hidle.
  destruct (@generation _ C _ _ Hg) as ((Hfile & Hlisp & _ & _ & Hsvcs) & Hrun).
  eexists; eexists; split; [exact Hrun|]. cbn [exports].
  assert (Hrpc : all_rpc_exports C g = []).
  { unfold all_rpc_exports. rewrite Hsvcs, flat_map_map.
    apply flat_map_ext_nil_in. exact Hidle. }
  rewrite entered_packages_trace, export_statements_trace, Hrpc.
  apply empty_false_iff in Hnonempty as Hempty. rewrite Hempty.
  split; [|split; reflexivity].
  apply (@declared_namespace_iff _ C _ _ _ Hg). right; left.
  unfold rpc_package_name. rewrite <- Hlisp. auto.
Qed.

(** X6: when the lisp package name is non-empty every accumulated symbol is
    written, once per occurrence and in the order of accumulation, type
    symbols first (lines 184-207): the export statements taken together list
    exactly the export vector followed by the RPC export vector; nothing is
    dropped, reordered or deduplicated. *)
Theorem symbols_exported_in_accumulation_order (file : FileDescriptor E) (g : FileGenerator E) :
  FileGenerator_new C file = Done g ->
  lisp_package_name_ g <> "" ->
  exists locals calls,
    GenerateSource C g = Done (locals, calls) /\
    raw_printed calls = (exports locals ++ rpc_exports locals)%list /\
    flat_map snd (export_statements calls) = (exports locals ++ rpc_exports locals)%list.
Proof.
  intros Hg Hnonempty. destruct (@generation _ C _ _ Hg) as (_ & Hrun).
  eexists; eexists; split; [exact Hrun|]. cbn [exports rpc_exports].
  apply empty_false_iff in Hnonempty.
  rewrite raw_printed_trace, export_statements_trace, Hnonempty.
  split; [reflexivity|].
  destruct (all_rpc_exports C g); cbn [non_empty flat_map snd app]; now rewrite ?app_nil_r.
Qed.

(** X7: a group title is printed exactly when the group is not empty
    (lines 141, 149, 157, 165), and then once. *)
Theorem titles_only_for_present_entities (file : FileDescriptor E) (g : FileGenerator E) :
  FileGenerator_new C file = Done g ->
  exists locals calls,
    GenerateSource C g = Done (locals, calls) /\
    printed Template.enums calls = (if non_empty (enum_types file) then [[]] else []) /\
    printed Template.messages calls = (if non_empty (message_types file) then [[]] else []) /\
    printed Template.extensions calls = (if non_empty (extensions file) then [[]] else []) /\
    printed Template.services calls = (if non_empty (services file) then [[]] else []).
Proof.
  intros Hg. destruct (@generation _ C _ _ Hg) as ((Hfile & _ & Henums & Hmsgs & Hsvcs) & Hrun).
  eexists; eexists; split; [exact Hrun|].
  rewrite printed_enums, printed_messages, printed_extensions, printed_services.
  rewrite Hfile, Henums, Hmsgs, Hsvcs, !non_empty_map. repeat split.
Qed.

Lemma separated_cons A (first rest : string) (c : A -> Call E) (x : A) (l : list A) :
  separated first rest c (x :: l)
  = Print first [] :: c x :: flat_map (fun y => [Print rest []; c y]) l.
Proof.
  cbn [separated]. do 2 f_equal.
  induction l as [|y l IH]; [reflexivity|]. cbn [separated flat_map app]. now rewrite IH.
Qed.

(** X8: the separators of the [sep] idiom are printed between items only
    (lines 118-132 and 187-205). In the import clause, which starts with the
    option separator when a [:package] clause precedes it and with an empty
    text otherwise, the first name follows an empty text and every later
    name the import separator; in an export statement the first symbol
    follows the opening parenthesis and every later symbol the export
    separator. Neither the import nor the option separator is printed
    outside the import clause, nor the export separator before the export
    statements, which end the output. *)
Theorem separators_only_between_items (file : FileDescriptor E) (g : FileGenerator E) :
  FileGenerator_new C file = Done g ->
  exists locals calls,
    GenerateSource C g = Done (locals, calls) /\
    (dependencies file = [] ->
     printed Template.import_sep calls = [] /\ printed Template.option_sep calls = []) /\
    (forall d ds, dependencies file = d :: ds ->
       exists before after,
         calls
         = (before ++
            Print (if StdString.empty (package file) then EmptyString
                   else Template.option_sep) [] ::
            Print Template.import_open [] ::
            Print EmptyString [] :: import_call d ::
            flat_map (fun d' => [Print Template.import_sep []; import_call d']) ds ++
            Print ")" [] :: after)%list /\
         printed Template.import_sep before = [] /\
         printed Template.import_sep after = [] /\
         printed Template.option_sep before = [] /\
         printed Template.option_sep after = []) /\
    (lisp_package_name_ g = "" -> printed Template.export_sep calls = []) /\
    (lisp_package_name_ g <> "" ->
     exists before symbols,
       exports locals = schema_name_ g :: symbols /\
       calls
       = (before ++
          Print Template.export [] :: Print "(" [] :: PrintRaw (schema_name_ g) ::
          flat_map (fun symbol => [Print Template.export_sep []; PrintRaw symbol]) symbols ++
          Print Template.export_close [] ::
          match rpc_exports locals with
          | [] => []
          | symbol :: symbols' =>
              in_package (rpc_package_name g) ::
              Print Template.export [] :: Print "(" [] :: PrintRaw symbol ::
              flat_map (fun symbol' => [Print Template.export_sep []; PrintRaw symbol'])
                       symbols' ++
              [Print Template.export_close []]
          end)%list /\
       printed Template.export_sep before = []).
Proof.
  intros Hg. destruct (@generation _ C _ _ Hg) as ((Hfile & _) & Hrun).
  eexists; eexists; split; [exact Hrun|]. cbn [exports rpc_exports].
  split; [|split; [|split]].
  - intros Hnone. apply no_separators_without_import. now rewrite Hfile.
  - intros d ds Hdeps.
    destruct (@import_clause_split _ C g) as (before & after & Hcalls & Hquiet);
      [rewrite Hfile, Hdeps; discriminate|].
    exists before, after. split; [|exact Hquiet].
    rewrite Hcalls, Hfile, Hdeps, separated_cons. cbn [app]. reflexivity.
  - intros Hempty. rewrite printed_export_sep, Hempty. reflexivity.
  - intros Hnonempty.
    exists (calls_before_exports C g). eexists. split; [reflexivity|].
    split; [|apply printed_export_sep_before].
    rewrite trace_split, export_section_nonempty by exact Hnonempty.
    unfold export_statement, all_exports at 1. rewrite separated_cons.
    cbn [app]. rewrite <- !app_assoc. cbn [app]. do 4 f_equal.
    destruct (all_rpc_exports C g) as [|symbol symbols']; [reflexivity|].
    cbn [non_empty]. now rewrite separated_cons.
Qed.

(** X9: the schema is defined once and registered once, and the registration
    looks up the name the schema was defined under, keyed by the file name as
    the descriptor has it (lines 111-114 and 176-182). *)
Theorem schema_registered_under_defined_name (file : FileDescriptor E) (g : FileGenerator E) :
  FileGenerator_new C file = Done g ->
  exists locals calls schema_name,
    GenerateSource C g = Done (locals, calls) /\
    printed Template.define_schema calls = [[("schema_name", schema_name)]] /\
    printed Template.register calls
    = [[("file_name", name file); ("schema_name", schema_name)]].
Proof.
  intros Hg. destruct (@generation _ C _ _ Hg) as ((Hfile & _) & Hrun).
  eexists; eexists; exists (schema_name_ g); split; [exact Hrun|].
  rewrite printed_define_schema, printed_register, Hfile. split; reflexivity.
Qed.

Lemma ill_formed_prints_nil (calls : list (Call E)) :
  ill_formed_prints calls = [] -> Forall (fun c => well_formed_print c = true) calls.
Proof.
  unfold ill_formed_prints, collect.
  induction calls as [|c calls IH]; intros Hnil; constructor.
  - cbn [flat_map] in Hnil. destruct (well_formed_print c); [reflexivity|discriminate].
  - apply IH. cbn [flat_map] in Hnil. now apply app_eq_nil in Hnil.
Qed.

(** X10: every [Print] call of [GenerateSource] has a template whose [$]
    delimiters are closed, and is given exactly the variables its template
    names: no call can run into the printer's undefined-variable or
    unclosed-variable errors. *)
Theorem prints_are_well_formed (file : FileDescriptor E) (g : FileGenerator E) :
  FileGenerator_new C file = Done g ->
  exists locals calls,
    GenerateSource C g = Done (locals, calls) /\
    Forall (fun c => well_formed_print c = true) calls.
Proof.
  intros Hg. destruct (@generation _ C _ _ Hg) as (_ & Hrun).
  eexists; eexists; split; [exact Hrun|].
  apply ill_formed_prints_nil, ill_formed_prints_trace.
Qed.

Lemma ascii_compare_refl (a : ascii) : Ascii_as_OT.compare a a = Eq.
Proof.
  destruct (Ascii_as_OT.compare_spec a a) as [_|Hlt|Hlt]; [reflexivity| |];
    exfalso; exact (StrictOrder_Irreflexive a Hlt).
Qed.

Lemma lt_proper_extension (s : string) (c : ascii) (t : string) :
  String_as_OT.lt s (s ++ String c t).
Proof.
  unfold String_as_OT.lt.
  induction s as [|a s IH]; [reflexivity|].
  cbn [append String_as_OT.compare]. now rewrite ascii_compare_refl.
Qed.

(** In a strictly sorted list a smaller member comes before a larger one. *)
Lemma sorted_before (l : list string) (x y : string) :
  Sorted String_as_OT.lt l -> In x l -> In y l -> String_as_OT.lt x y ->
  exists a b c, l = (a ++ x :: b ++ y :: c)%list.
Proof.
  intros Hsorted. apply Sorted_StronglySorted in Hsorted; [|exact StrictOrder_Transitive].
  induction Hsorted as [|h t Ht IH Hall]; intros Hx Hy Hlt; [contradiction|].
  rewrite Forall_forall in Hall.
  destruct Hx as [->|Hx].
  - destruct Hy as [->|Hy]; [exfalso; exact (StrictOrder_Irreflexive y Hlt)|].
    apply in_split in Hy as (b & c & ->). exists [], b, c. reflexivity.
  - destruct Hy as [->|Hy].
    + exfalso. apply (StrictOrder_Irreflexive x).
      exact (StrictOrder_Transitive _ _ _ Hlt (Hall x Hx)).
    + destruct (IH Hx Hy Hlt) as (a & b & c & ->). exists (h :: a), b, c. reflexivity.
Qed.

(** X11: the packages are declared in the key order of the [std::set]
    (lines 84-104), so for a file with a service and a non-empty lisp package
    name the declaration of the lisp package comes before that of its RPC
    package. *)
Theorem package_declared_before_rpc_package (file : FileDescriptor E) (g : FileGenerator E) :
  FileGenerator_new C file = Done g ->
  lisp_package_name_ g <> "" ->
  services file <> [] ->
  exists locals calls before between after,
    GenerateSource C g = Done (locals, calls) /\
    declared_packages calls
    = (before ++ lisp_package_name_ g :: between ++ rpc_package_name g :: after)%list.
Proof.
  intros Hg Hnonempty Hsome.
  destruct (@generation _ C _ _ Hg) as ((_ & Hlisp & _) & Hrun).
  destruct (@sorted_before (declared_packages (trace C g)) (lisp_package_name_ g)
              (rpc_package_name g)) as (a & b & c & Hsplit).
  - rewrite declared_packages_trace. apply elements_sorted.
  - apply (@declared_namespace_iff _ C _ _ _ Hg). left. rewrite <- Hlisp. auto.
  - apply (@declared_namespace_iff _ C _ _ _ Hg). right; left.
    unfold rpc_package_name. rewrite <- Hlisp. auto.
  - apply lt_proper_extension.
  - eexists; eexists; exists a, b, c. split; [exact Hrun|exact Hsplit].
Qed.

(** X12: the output comes in three phases (lines 75-109, 111-172, 176-208):
    first the header and package declarations, with no schema or entity
    output; then the schema form and the entities, with no package
    declaration; last the registration followed by the export statements,
    with no declaration and no entity.  Symbols are written raw in the last
    phase only. *)
Theorem output_phases (file : FileDescriptor E) (g : FileGenerator E) :
  FileGenerator_new C file = Done g ->
  exists locals calls declarations definitions exports_part,
    GenerateSource C g = Done (locals, calls) /\
    calls = (declarations ++ definitions ++ register_call g :: exports_part)%list /\
    (skeleton declarations = [] /\ raw_printed declarations = []) /\
    (declared_packages definitions = [] /\ printed Template.register definitions = [] /\
     raw_printed definitions = []) /\
    (declared_packages (register_call g :: exports_part) = [] /\
     skeleton (register_call g :: exports_part) = []).
Proof.
  intros Hg. destruct (@generation _ C _ _ Hg) as (_ & Hrun).
  exists (mkLocals (all_packages C g) (all_exports C g) (all_rpc_exports C g)), (trace C g),
    (header_calls g ++ package_calls C g)%list, (schema_calls g ++ entity_section g)%list,
    (export_section (lisp_package_name_ g) (all_exports C g) (all_rpc_exports C g)).
  split; [exact Hrun|]. split; [unfold trace; now rewrite <- !app_assoc|].
  destruct (declarations_quiet C g) as (H1 & H2).
  destruct (definitions_quiet g) as (H3 & H4 & H5).
  destruct (epilogue_quiet C g) as (H6 & H7).
  unfold declared_packages. rewrite H3, H6. repeat split; assumption.
Qed.

End FurtherProperties.

(** * The further properties on concrete files *)

Section FurtherExamples.
Import Example Scenario.

Lemma constructor_builds_generators_in_order_witness :
  FileGenerator_new collaborators addressbook = Done (generator addressbook) /\
  file_ (generator addressbook) = addressbook /\
  lisp_package_name_ (generator addressbook) = "TUTORIAL" /\
  enums_ (generator addressbook) = [phone_type] /\
  messages_ (generator addressbook) = [person; address_book] /\
  services_ (generator addressbook) = [directory].
Proof.
  split; [reflexivity|].
  exact (@constructor_builds_generators_in_order entities collaborators addressbook
           (generator addressbook) eq_refl).
Defined.

Lemma bare_name_has_no_separator : free_of is_separator (name addressbook_here).
Proof.
  intros c Hc [-> | ->]; vm_compute in Hc; intuition discriminate.
Qed.

Lemma schema_name_ignores_directory_witness :
  (FileGenerator_new collaborators addressbook = Done (generator addressbook) /\
   FileGenerator_new collaborators addressbook_here = Done (generator addressbook_here) /\
   name addressbook = "protos" ++ String slash (name addressbook_here) /\
   is_separator slash /\
   free_of is_separator (name addressbook_here)) /\
  schema_name_ (generator addressbook) = schema_name_ (generator addressbook_here).
Proof.
  split; [repeat split; first [left; reflexivity | exact bare_name_has_no_separator]|].
  exact (@schema_name_ignores_directory entities collaborators addressbook addressbook_here
           (generator addressbook) (generator addressbook_here) "protos" slash
           eq_refl eq_refl eq_refl (or_introl eq_refl) bare_name_has_no_separator).
Defined.

Lemma schema_options_are_the_only_indented_output_witness :
  FileGenerator_new collaborators addressbook = Done (generator addressbook) /\
  exists locals calls before after,
    GenerateSource collaborators (generator addressbook) = Done (locals, calls) /\
    calls
    = (before ++
       Print Template.define_schema [("schema_name", "addressbook")] ::
       Indent :: Indent ::
       [Print Template.syntax [("syntax", ":proto3")];
        Print EmptyString [];
        Print Template.package [("pck", "tutorial")];
        Print Template.option_sep [];
        Print Template.import_open [];
        Print EmptyString [];
        Print Template.import [("import", "google/protobuf/timestamp.proto")];
        Print ")" [];
        Print Template.schema_close []] ++
       Outdent :: Outdent :: after)%list /\
    skeleton before = [] /\
    skeleton after
    = [EntityGenerated; EntityGenerated; EntityGenerated; EntityGenerated; EntityGenerated].
Proof.
  split; [reflexivity|].
  exact (@schema_options_are_the_only_indented_output entities collaborators addressbook
           (generator addressbook) eq_refl).
Defined.

Lemma entered_packages_are_declared_witness :
  FileGenerator_new collaborators addressbook = Done (generator addressbook) /\
  exists locals calls,
    GenerateSource collaborators (generator addressbook) = Done (locals, calls) /\
    Forall (fun p => p <> "" /\ In p (declared_packages calls)) (entered_packages calls) /\
    forall before vars after,
      calls = (before ++ Print Template.in_package vars :: after)%list ->
      exists p,
        vars = [("package_name", p)] /\ p <> "" /\
        In (declare_package p) before /\
        In p (declared_packages before).
Proof.
  split; [reflexivity|].
  exact (@entered_packages_are_declared entities collaborators addressbook
           (generator addressbook) eq_refl).
Defined.

Lemma idle_reports_no_rpc_symbol :
  forall s, In s (services idle_service) ->
            service_rpc_exports collaborators (ServiceGenerator_new collaborators s) = [].
Proof. intros s [<-|[]]. reflexivity. Qed.

Lemma rpc_package_declared_but_unused_witness :
  (FileGenerator_new collaborators idle_service = Done (generator idle_service) /\
   lisp_package_name_ (generator idle_service) <> "" /\
   services idle_service <> []) /\
  exists locals calls,
    GenerateSource collaborators (generator idle_service) = Done (locals, calls) /\
    In "IDLE-RPC" (declared_packages calls) /\
    entered_packages calls = ["IDLE"] /\
    export_statements calls = [(Some "IDLE", exports locals)].
Proof.
  split; [split; [reflexivity|split; discriminate]|].
  exact (@rpc_package_declared_but_unused entities collaborators idle_service
           (generator idle_service) eq_refl ltac:(discriminate) ltac:(discriminate)
           idle_reports_no_rpc_symbol).
Defined.

Lemma symbols_exported_in_accumulation_order_witness :
  (FileGenerator_new collaborators addressbook = Done (generator addressbook) /\
   lisp_package_name_ (generator addressbook) <> "") /\
  exists locals calls,
    GenerateSource collaborators (generator addressbook) = Done (locals, calls) /\
    raw_printed calls = (exports locals ++ rpc_exports locals)%list /\
    flat_map snd (export_statements calls) = (exports locals ++ rpc_exports locals)%list.
Proof.
  split; [split; [reflexivity|discriminate]|].
  exact (@symbols_exported_in_accumulation_order entities collaborators addressbook
           (generator addressbook) eq_refl ltac:(discriminate)).
Defined.

Lemma titles_only_for_present_entities_witness :
  FileGenerator_new collaborators idle_service = Done (generator idle_service) /\
  exists locals calls,
    GenerateSource collaborators (generator idle_service) = Done (locals, calls) /\
    printed Template.enums calls = [] /\
    printed Template.messages calls = [] /\
    printed Template.extensions calls = [] /\
    printed Template.services calls = [[]].
Proof.
  split; [reflexivity|].
  exact (@titles_only_for_present_entities entities collaborators idle_service
           (generator idle_service) eq_refl).
Defined.

Lemma separators_only_between_items_witness :
  (FileGenerator_new collaborators addressbook = Done (generator addressbook) /\
   dependencies addressbook = [timestamp] /\
   lisp_package_name_ (generator addressbook) <> "") /\
  exists locals calls,
    GenerateSource collaborators (generator addressbook) = Done (locals, calls) /\
    (exists before after,
        calls
        = (before ++
           Print Template.option_sep [] ::
           Print Template.import_open [] ::
           Print EmptyString [] :: import_call timestamp ::
           Print ")" [] :: after)%list /\
        printed Template.import_sep before = [] /\
        printed Template.import_sep after = [] /\
        printed Template.option_sep before = [] /\
        printed Template.option_sep after = []) /\
    (exists before symbols,
        exports locals = "addressbook" :: symbols /\
        calls
        = (before ++
           Print Template.export [] :: Print "(" [] :: PrintRaw "addressbook" ::
           flat_map (fun symbol => [Print Template.export_sep []; PrintRaw symbol]) symbols ++
           Print Template.export_close [] ::
           match rpc_exports locals with
           | [] => []
           | symbol :: symbols' =>
               in_package "TUTORIAL-RPC" ::
               Print Template.export [] :: Print "(" [] :: PrintRaw symbol ::
               flat_map (fun symbol' => [Print Template.export_sep []; PrintRaw symbol'])
                        symbols' ++
               [Print Template.export_close []]
           end)%list /\
        printed Template.export_sep before = []).
Proof.
  split; [split; [reflexivity|split; [reflexivity|discriminate]]|].
  destruct (@separators_only_between_items entities collaborators addressbook
              (generator addressbook) eq_refl)
    as (locals & calls & Hrun & _ & Himport & _ & Hexport).
  exists locals, calls. split; [exact Hrun|]. split.
  - exact (Himport timestamp [] eq_refl).
  - apply Hexport. discriminate.
Defined.

Lemma schema_registered_under_defined_name_witness :
  FileGenerator_new collaborators addressbook = Done (generator addressbook) /\
  exists locals calls schema_name,
    GenerateSource collaborators (generator addressbook) = Done (locals, calls) /\
    printed Template.define_schema calls = [[("schema_name", schema_name)]] /\
    printed Template.register calls
    = [[("file_name", "protos/AddressBook.proto"); ("schema_name", schema_name)]].
Proof.
  split; [reflexivity|].
  exact (@schema_registered_under_defined_name entities collaborators addressbook
           (generator addressbook) eq_refl).
Defined.

Lemma prints_are_well_formed_witness :
  FileGenerator_new collaborators addressbook = Done (generator addressbook) /\
  exists locals calls,
    GenerateSource collaborators (generator addressbook) = Done (locals, calls) /\
    Forall (fun c => well_formed_print c = true) calls.
Proof.
  split; [reflexivity|].
  exact (@prints_are_well_formed entities collaborators addressbook
           (generator addressbook) eq_refl).
Defined.

Lemma package_declared_before_rpc_package_witness :
  (FileGenerator_new collaborators addressbook = Done (generator addressbook) /\
   lisp_package_name_ (generator addressbook) <> "" /\
   services addressbook <> []) /\
  exists locals calls before between after,
    GenerateSource collaborators (generator addressbook) = Done (locals, calls) /\
    declared_packages calls = (before ++ "TUTORIAL" :: between ++ "TUTORIAL-RPC" :: after)%list.
Proof.
  split; [split; [reflexivity|split; discriminate]|].
  exact (@package_declared_before_rpc_package entities collaborators addressbook
           (generator addressbook) eq_refl ltac:(discriminate) ltac:(discriminate)).
Defined.

Lemma output_phases_witness :
  FileGenerator_new collaborators addressbook = Done (generator addressbook) /\
  exists locals calls declarations definitions exports_part,
    GenerateSource collaborators (generator addressbook) = Done (locals, calls) /\
    calls = (declarations ++ definitions ++
             register_call (generator addressbook) :: exports_part)%list /\
    (skeleton declarations = [] /\ raw_printed declarations = []) /\
    (declared_packages definitions = [] /\ printed Template.register definitions = [] /\
     raw_printed definitions = []) /\
    (declared_packages (register_call (generator addressbook) :: exports_part) = [] /\
     skeleton (register_call (generator addressbook) :: exports_part) = []).
Proof.
  split; [reflexivity|].
  exact (@output_phases entities collaborators addressbook (generator addressbook) eq_refl).
Defined.

End FurtherExamples.
